(** * The NLP container of the research agent: a shallow embedding

    The development follows [apps/research-agent/containers/nlp]:
    [utils.py] (normalizer, chunker, keyword ranker), [config.py],
    [models.py], [nlp_agent.py] (the [NLPProcessor] facade) and [main.py]
    (the [/process] route).

    A Python [str] is the list of its characters.  Characters are the 256
    code points of Latin-1; [isspace], [lower], [isalpha] and [isalnum]
    below are Python's on that range.  The machine-learned models,
    TextBlob and the nltk tokenizers are collaborators of the code and
    appear as fields of records.  What the facade hands to a model or to
    a fallback algorithm is recorded in a call log, which is the only
    addition to the code. *)

From Stdlib Require Import Ascii String List Bool ZArith QArith Qabs Lia.
From Stdlib Require Import Permutation Sorted.
Import ListNotations.

Local Open Scope Z_scope.

(** ** Python strings *)

Module Py.

Definition str := list ascii.

Definition s (lit : string) : str := list_ascii_of_string lit.

Definition len (x : str) : Z := Z.of_nat (length x).

Definition str_eqb (x y : str) : bool :=
  if list_eq_dec ascii_dec x y then true else false.

Definition code (c : ascii) : N := N_of_ascii c.

Definition between (lo hi : N) (c : ascii) : bool :=
  ((lo <=? code c) && (code c <=? hi))%N.

(** [str.isspace] on one character: TAB..CR, FS..US, space, NEL, NBSP. *)
Definition isspace (c : ascii) : bool :=
  between 9 13 c || between 28 32 c || (code c =? 133)%N || (code c =? 160)%N.

Definition space : ascii := " "%char.

(** [str.lower] on one character. *)
Definition lower_char (c : ascii) : ascii :=
  if between 65 90 c || (between 192 222 c && negb (code c =? 215)%N)
  then ascii_of_N (code c + 32)
  else c.

Definition lower (x : str) : str := map lower_char x.

(** [str.isalpha] on one character. *)
Definition isalpha_char (c : ascii) : bool :=
  between 65 90 c || between 97 122 c
  || (code c =? 170)%N || (code c =? 181)%N || (code c =? 186)%N
  || between 192 214 c || between 216 246 c || between 248 255 c.

(** [x.isalpha()]: false on the empty string. *)
Definition isalpha (x : str) : bool :=
  match x with
  | [] => false
  | _ => forallb isalpha_char x
  end.

(** [str.isalnum] on one character. *)
Definition isalnum_char (c : ascii) : bool :=
  between 48 57 c || between 65 90 c || between 97 122 c
  || (code c =? 170)%N || between 178 179 c || (code c =? 181)%N
  || between 185 186 c || between 188 190 c
  || between 192 214 c || between 216 246 c || between 248 255 c.

(** [x.isalnum()]: false on the empty string. *)
Definition isalnum (x : str) : bool :=
  match x with
  | [] => false
  | _ => forallb isalnum_char x
  end.

(** [x[:n]] for an integer [n] of either sign. *)
Definition prefix (x : str) (n : Z) : str :=
  if 0 <=? n then firstn (Z.to_nat n) x
  else firstn (length x - Z.to_nat (- n)) x.

(** [xs[:n]] on a list, same rule. *)
Definition take {A} (xs : list A) (n : Z) : list A :=
  if 0 <=? n then firstn (Z.to_nat n) xs
  else firstn (length xs - Z.to_nat (- n)) xs.

(** [sep.join(xs)]. *)
Fixpoint join (sep : str) (xs : list str) : str :=
  match xs with
  | [] => []
  | [x] => x
  | x :: rest => x ++ sep ++ join sep rest
  end.

(** [x.lstrip()], [x.rstrip()], [x.strip()]. *)
Fixpoint lstrip (x : str) : str :=
  match x with
  | [] => []
  | c :: rest => if isspace c then lstrip rest else x
  end.

Definition rstrip (x : str) : str := rev (lstrip (rev x)).

Definition strip (x : str) : str := rstrip (lstrip x).

(** [x.replace(' ', '')]. *)
Definition remove_spaces (x : str) : str :=
  filter (fun c => negb (Ascii.eqb c space)) x.

(** Truthiness of a string: [if x:]. *)
Definition truthy (x : str) : bool :=
  match x with [] => false | _ => true end.

(** Whether the first, resp. last, character is whitespace. *)
Definition starts_ws (x : str) : bool :=
  match x with
  | [] => false
  | c :: _ => isspace c
  end.

Definition ends_ws (x : str) : bool := starts_ws (rev x).

(** Whether some character is not whitespace. *)
Definition has_solid (x : str) : bool := existsb (fun c => negb (isspace c)) x.

(** No two whitespace characters in a row. *)
Fixpoint no_ws_run (x : str) : bool :=
  match x with
  | [] => true
  | c :: rest => negb (isspace c && starts_ws rest) && no_ws_run rest
  end.

(** A chunk as the chunker promises it: not empty, no whitespace at
    either end. *)
Definition trimmed_nonempty (x : str) : Prop :=
  x <> [] /\ starts_ws x = false /\ ends_ws x = false.

(** Every whitespace character is a space. *)
Definition only_spaces (x : str) : Prop :=
  Forall (fun c => isspace c = true -> c = space) x.

End Py.

Import Py.

(** ** utils.py: the normalizer *)

(** [re.sub(r'\s+', ' ', x)]: every maximal run of whitespace becomes one
    space.  [in_run] tells that the previous character was whitespace, so
    the run it belongs to has already been replaced. *)
Fixpoint sub_ws (in_run : bool) (x : str) : str :=
  match x with
  | [] => []
  | c :: rest =>
      if isspace c
      then (if in_run then sub_ws true rest else space :: sub_ws true rest)
      else c :: sub_ws false rest
  end.

Definition clean_text (text : str) : str := sub_ws false (strip text).

(** ** Floats

    Scores, polarities and confidences are Python floats.  The code only
    negates them, takes absolute values and compares them, all of which
    are exact on finite doubles, so a float is modelled by the rational
    it denotes; a literal denotes the double nearest to it. *)

Definition float := Q.

Definition f0_0 : float := 0 # 1.
Definition f0_1 : float := 3602879701896397 # 36028797018963968.
Definition f0_5 : float := 1 # 2.
Definition f0_7 : float := 3152519739159347 # 4503599627370496.
Definition f0_8 : float := 3602879701896397 # 4503599627370496.
Definition f0_9 : float := 8106479329266893 # 9007199254740992.

Definition Qlt_bool (x y : Q) : bool := negb (Qle_bool y x).

(** ** config.py *)

Record NLPConfig := {
  max_text_length : Z;
  max_chunk_size : Z;
  max_entities : Z;
  summary_max_length : Z;
  sentiment_label_mapping : list (str * str)
}.

Definition config : NLPConfig := {|
  max_text_length := 5000;
  max_chunk_size := 1000;
  max_entities := 10;
  summary_max_length := 150;
  sentiment_label_mapping :=
    [ (s "LABEL_0", s "negative"); (s "LABEL_1", s "neutral");
      (s "LABEL_2", s "positive"); (s "NEGATIVE", s "negative");
      (s "NEUTRAL", s "neutral"); (s "POSITIVE", s "positive") ]
|}.

(** ** models.py *)

Record SentimentResult := {
  score : float;
  label : str;
  confidence : float
}.

Record EntityResult := {
  entity_text : str;
  entity_label : str;
  entity_confidence : float
}.

Record LanguageResult := {
  language_code : str;
  language_confidence : float
}.

Record NLPTask := {
  task_text : str;
  operations : list str
}.

Record NLPResult := {
  summary : option str;
  sentiment : option SentimentResult;
  entities : option (list EntityResult);
  language : option LanguageResult
}.

(** [processing_time_ms] is wall-clock time and is left out. *)
Record AgentResponse := {
  success : bool;
  data : option NLPResult;
  error : option str
}.

(** ** Python dicts keyed by strings, in insertion order *)

Module Dict.

Definition t (V : Type) := list (str * V).

Fixpoint get {V} (d : t V) (k : str) : option V :=
  match d with
  | [] => None
  | (k', v) :: rest => if str_eqb k' k then Some v else get rest k
  end.

(** [d[k] = v]: an existing key keeps its place. *)
Fixpoint set {V} (d : t V) (k : str) (v : V) : t V :=
  match d with
  | [] => [(k, v)]
  | (k', v') :: rest =>
      if str_eqb k' k then (k', v) :: rest else (k', v') :: set rest k v
  end.

Definition keys {V} (d : t V) : list str := map fst d.

End Dict.

(** A keyword argument left at [None] takes the configured value. *)
Definition or_default (v : option Z) (default : Z) : Z :=
  match v with
  | None => default
  | Some m => m
  end.

(** ** The nltk tokenizers *)

Record Nltk := {
  sent_tokenize : str -> list str;
  word_tokenize : str -> list str
}.

(** ** utils.py: the chunker and the keyword ranker *)

Section Utils.

Variable cfg : NLPConfig.
Variable nltk : Nltk.

(** One turn of the loop of [chunk_text] over the pair
    [(chunks, current_chunk)]. *)
Definition chunk_step (max_size : Z) (st : list str * str) (sentence : str)
  : list str * str :=
  let '(chunks, current_chunk) := st in
  if len current_chunk + len sentence >? max_size then
    ((if truthy current_chunk then chunks ++ [strip current_chunk] else chunks),
     sentence)
  else
    (chunks, current_chunk ++ s " " ++ sentence).

Definition chunk_sentences (max_size : Z) (sentences : list str) : list str :=
  let '(chunks, current_chunk) :=
    fold_left (chunk_step max_size) sentences ([], []) in
  if truthy current_chunk then chunks ++ [strip current_chunk] else chunks.

(** [max_size] is the parameter [max_chunk_size] of the source. *)
Definition chunk_text (text : str) (max_size : option Z) : list str :=
  let max_size := or_default max_size cfg.(max_chunk_size) in
  chunk_sentences max_size (sent_tokenize nltk text).

(** What the loop of [chunk_text] keeps true when every sentence has a
    visible character: the chunks closed so far are trimmed and not
    empty, and the buffer is empty or has a visible character. *)
Definition chunker_inv (st : list str * str) : Prop :=
  Forall trimmed_nonempty (fst st)
  /\ (snd st = [] \/ has_solid (snd st) = true).

(** [Counter(words)]. *)
Definition Counter := Dict.t Z.

Definition counter_add (c : Counter) (w : str) : Counter :=
  match Dict.get c w with
  | Some n => Dict.set c w (n + 1)
  | None => Dict.set c w 1
  end.

Definition extract_keywords (text : str) (min_length : Z) : Counter :=
  let words := word_tokenize nltk (lower text) in
  let words := filter (fun w => isalnum w && (len w >? min_length)) words in
  fold_left counter_add words [].

End Utils.

(** ** Exceptions and the call log

    A computation either raises or returns, and leaves the list of calls
    it made to its collaborators, in order. *)

Inductive exn :=
| HTTPException (status_code : Z) (detail : str)
| Exception (message : str).

(** What a collaborator answers: a value, or an exception of its own. *)
Inductive outcome (A : Type) :=
| Ok (a : A)
| Err (message : str).

Arguments Ok {A} a.
Arguments Err {A} message.

Definition M (E A : Type) : Type := (exn + A) * list E.

Definition ret {E A} (a : A) : M E A := (inr a, []).

Definition raise {E A} (e : exn) : M E A := (inl e, []).

Definition tell {E} (ev : E) : M E unit := (inr tt, [ev]).

Definition bind {E A B} (m : M E A) (f : A -> M E B) : M E B :=
  match m with
  | (inl e, log) => (inl e, log)
  | (inr a, log) => let '(r, log') := f a in (r, log ++ log')
  end.

(** [try: m except Exception as e: handler e]. *)
Definition try_except {E A} (m : M E A) (handler : exn -> M E A) : M E A :=
  match m with
  | (inl e, log) => let '(r, log') := handler e in (r, log ++ log')
  | (inr a, log) => (inr a, log)
  end.

Definition of_outcome {E A} (o : outcome A) : M E A :=
  match o with
  | Ok a => ret a
  | Err message => raise (Exception message)
  end.

Declare Scope monad_scope.
Delimit Scope monad_scope with monad.

Notation "x <- m ;; k" := (bind m (fun x => k))
  (at level 61, m at next level, right associativity) : monad_scope.
Notation "m ;; k" := (bind m (fun _ => k))
  (at level 61, right associativity) : monad_scope.

Local Open Scope monad_scope.

(** [for x in xs: ys.append(body x)], stopping at the first exception. *)
Fixpoint for_each {E A B} (xs : list A) (body : A -> M E B) : M E (list B) :=
  match xs with
  | [] => ret []
  | x :: rest =>
      y <- body x ;;
      ys <- for_each rest body ;;
      ret (y :: ys)
  end.

(** [for x in xs: acc = body acc x]. *)
Fixpoint for_fold {E A B} (xs : list A) (acc : B) (body : B -> A -> M E B) : M E B :=
  match xs with
  | [] => ret acc
  | x :: rest =>
      acc' <- body acc x ;;
      for_fold rest acc' body
  end.

(** [a // b] on integers. *)
Definition floordiv {E} (a b : Z) : M E Z :=
  if b =? 0 then raise (Exception (s "integer division or modulo by zero"))
  else ret (a / b).

(** [max(xs, key=...)]: the first element whose key is largest. *)
Fixpoint max_by_score (best : str * float) (xs : list (str * float)) : str * float :=
  match xs with
  | [] => best
  | x :: rest =>
      max_by_score (if Qlt_bool (snd best) (snd x) then x else best) rest
  end.

Definition py_max {E} (xs : list (str * float)) : M E (str * float) :=
  match xs with
  | [] => raise (Exception (s "max() arg is an empty sequence"))
  | x :: rest => ret (max_by_score x rest)
  end.

(** [sorted(items, key=lambda x: x[1], reverse=True)]: stable, largest
    score first. *)
Fixpoint insert_desc (x : str * Z) (sorted : list (str * Z)) : list (str * Z) :=
  match sorted with
  | [] => [x]
  | y :: rest =>
      if snd y <=? snd x then x :: sorted else y :: insert_desc x rest
  end.

Definition sorted_desc (items : list (str * Z)) : list (str * Z) :=
  fold_right insert_desc [] items.

(** Membership in a list of strings: [x in xs]. *)
Definition mem (x : str) (xs : list str) : bool := existsb (str_eqb x) xs.

(** ** nlp_agent.py *)

(** The calls the facade makes to a model or to a fallback algorithm,
    with what each is handed. *)
Inductive call :=
| Summarizer (chunk : str) (max_length min_length : Z)
| SentimentAnalyzer (input : str)
| Spacy (input : str)
| ExtractiveSummary (text : str) (max_length : Z)
| TextBlobSentiment (text : str)
| TextBlobNounPhrases (text : str)
| TextBlobLanguage (text : str).

(** The text a call consumes. *)
Definition consumed (c : call) : str :=
  match c with
  | Summarizer chunk _ _ => chunk
  | SentimentAnalyzer input => input
  | Spacy input => input
  | ExtractiveSummary text _ => text
  | TextBlobSentiment text => text
  | TextBlobNounPhrases text => text
  | TextBlobLanguage text => text
  end.

(** TextBlob: polarity of a text, its noun phrases, its language. *)
Record TextBlob := {
  polarity : str -> outcome float;
  noun_phrases : str -> outcome (list str);
  detect_language_of : str -> outcome str
}.

(** The model handles of [NLPProcessor]; [None] when loading failed.
    [nlp] answers the entity spans as (text, label); [sentiment_analyzer]
    answers [results[0]], the (label, score) of every class; [summarizer]
    answers [result[0]['summary_text']]. *)
Record NLPProcessor := {
  nlp : option (str -> outcome (list (str * str)));
  sentiment_analyzer : option (str -> outcome (list (str * float)));
  summarizer : option (str -> Z -> Z -> outcome str)
}.

Section Facade.

Variable cfg : NLPConfig.
Variable nltk : Nltk.
Variable textblob : TextBlob.
Variable self : NLPProcessor.

(** The score of a sentence:
    [sum(word_freq[w] for w in words if w in word_freq)]. *)
Definition sentence_score (word_freq : Counter) (sentence : str) : Z :=
  let words := word_tokenize nltk (lower sentence) in
  fold_left
    (fun total w => match Dict.get word_freq w with
                    | Some n => total + n
                    | None => total
                    end)
    words 0.

(** The sentences the summary keeps, in the order of the text. *)
Definition summary_of_sentences (text : str) (sentences : list str) : list str :=
  let word_freq := extract_keywords nltk text 3 in
  let sentence_scores :=
    fold_left
      (fun d sentence => Dict.set d sentence (sentence_score word_freq sentence))
      sentences [] in
  let top_sentences := sorted_desc sentence_scores in
  let summary_sentences :=
    map fst (take top_sentences
               (Z.min 3 (Z.of_nat (length sentences) / 2))) in
  filter (fun sentence => mem sentence summary_sentences) sentences.

Definition _extractive_summary (text : str) (max_length : Z) : str :=
  let sentences := sent_tokenize nltk text in
  if Z.of_nat (length sentences) <=? 2 then text
  else
    let summary := summary_of_sentences text sentences in
    let summary_text := join (s " ") summary in
    if len summary_text >? max_length
    then prefix summary_text max_length ++ s "..."
    else summary_text.

Definition summarize_text (text : str) (max_length : option Z) : M call str :=
  let max_length := or_default max_length cfg.(summary_max_length) in
  if negb (truthy text) || (len (strip text) <? 50) then ret text
  else
    let text := clean_text text in
    let fallback :=
      tell (ExtractiveSummary text max_length) ;;
      ret (_extractive_summary text max_length) in
    match self.(summarizer) with
    | Some model =>
        if len text >? 200 then
          try_except
            (let chunks := chunk_text cfg nltk text None in
             summaries <-
               for_each (take chunks 3)
                 (fun chunk =>
                    budget <- floordiv max_length (Z.of_nat (length chunks)) ;;
                    tell (Summarizer chunk (Z.min budget 130) 20) ;;
                    of_outcome (model chunk (Z.min budget 130) 20)) ;;
             ret (join (s " ") summaries))
            (fun _ => fallback)
        else fallback
    | None => fallback
    end.

(** Lines 122-134: the result made of the winning class of the model. *)
Definition model_sentiment (best_result : str * float) : SentimentResult :=
  let label :=
    match Dict.get cfg.(sentiment_label_mapping) (fst best_result) with
    | Some l => l
    | None => lower (fst best_result)
    end in
  let score := snd best_result in
  let score :=
    if str_eqb label (s "negative") then (- score)%Q
    else if str_eqb label (s "neutral") then f0_0
    else score in
  {| score := score; label := label; confidence := snd best_result |}.

(** Lines 143-154: the result made of the polarity of TextBlob. *)
Definition polarity_sentiment (polarity : float) : SentimentResult :=
  let label :=
    if Qlt_bool f0_1 polarity then s "positive"
    else if Qlt_bool polarity (- f0_1)%Q then s "negative"
    else s "neutral" in
  {| score := polarity; label := label; confidence := Qabs polarity |}.

Definition analyze_sentiment (text : str) : M call SentimentResult :=
  if negb (truthy text) then
    ret {| score := f0_0; label := s "neutral"; confidence := f0_0 |}
  else
    let fallback :=
      tell (TextBlobSentiment text) ;;
      polarity <- of_outcome (textblob.(polarity) text) ;;
      ret (polarity_sentiment polarity) in
    match self.(sentiment_analyzer) with
    | Some model =>
        try_except
          (tell (SentimentAnalyzer (prefix text 512)) ;;
           results <- of_outcome (model (prefix text 512)) ;;
           best_result <- py_max results ;;
           ret (model_sentiment best_result))
          (fun _ => fallback)
    | None => fallback
    end.

Definition extract_entities (text : str) : M call (list EntityResult) :=
  let fallback :=
    tell (TextBlobNounPhrases text) ;;
    phrases <- of_outcome (textblob.(noun_phrases) text) ;;
    let entities :=
      map (fun noun_phrase =>
             {| entity_text := noun_phrase;
                entity_label := s "NOUN_PHRASE";
                entity_confidence := f0_7 |})
          (filter (fun noun_phrase =>
                     (len noun_phrase >? 2) && isalpha (remove_spaces noun_phrase))
                  phrases) in
    ret (take entities cfg.(max_entities)) in
  match self.(nlp) with
  | Some model =>
      try_except
        (tell (Spacy (prefix text 1000)) ;;
         ents <- of_outcome (model (prefix text 1000)) ;;
         let entities :=
           map (fun ent =>
                  {| entity_text := fst ent;
                     entity_label := snd ent;
                     entity_confidence := f0_9 |})
               ents in
         ret entities)
        (fun _ => fallback)
  | None => fallback
  end.

Definition detect_language (text : str) : M call LanguageResult :=
  try_except
    (tell (TextBlobLanguage text) ;;
     detected <- of_outcome (textblob.(detect_language_of) text) ;;
     ret {| language_code := detected; language_confidence := f0_8 |})
    (fun _ => ret {| language_code := s "en"; language_confidence := f0_5 |}).

End Facade.

(** The call [summarize_text] makes to the summarizer for one chunk of a
    text cut into [chunk_count] chunks. *)
Definition summarizer_call (max_length : Z) (chunk_count : nat) (chunk : str) : call :=
  Summarizer chunk (Z.min (max_length / Z.of_nat chunk_count) 130) 20.

Definition is_summarizer_call (c : call) : bool :=
  match c with
  | Summarizer _ _ _ => true
  | _ => false
  end.

(** The [(max_length, min_length)] of the summarizer calls of a log. *)
Definition summarizer_budgets (log : list call) : list (Z * Z) :=
  flat_map
    (fun c => match c with
              | Summarizer _ max_length min_length => [(max_length, min_length)]
              | _ => []
              end)
    log.


(** ** main.py: the [/process] route *)

(** What [process_text] does, in order: it hands the text to a facade
    method ([Dispatch]), which then calls its collaborators. *)
Inductive event :=
| Dispatch (operation : str)
| Collaborator (c : call).

Definition lift {A} (m : M call A) : M event A :=
  (fst m, map Collaborator (snd m)).

Definition text_required : exn :=
  HTTPException 400 (s "Text is required").

Definition operation_required : exn :=
  HTTPException 400 (s "At least one operation is required").

Definition unknown_operation (operation : str) : exn :=
  HTTPException 400
    (s "Unknown operation: " ++ operation
       ++ s ". Supported: summarize, sentiment, entities, language").

Definition processing_failed (message : str) : AgentResponse :=
  {| success := false;
     data := None;
     error := Some (s "NLP processing failed: " ++ message) |}.

Definition NLPResult_empty : NLPResult :=
  {| summary := None; sentiment := None; entities := None; language := None |}.

(** [not task.text or not task.text.strip()]. *)
Definition blank (text : str) : bool :=
  negb (truthy text) || negb (truthy (strip text)).

Section Route.

Variable cfg : NLPConfig.
Variable nltk : Nltk.
Variable textblob : TextBlob.
Variable nlp_processor : NLPProcessor.

(** The body of [for operation in task.operations]. *)
Definition process_operation (text : str) (result : NLPResult) (operation : str)
  : M event NLPResult :=
  if str_eqb operation (s "summarize") then
    tell (Dispatch operation) ;;
    v <- lift (summarize_text cfg nltk nlp_processor text None) ;;
    ret {| summary := Some v; sentiment := result.(sentiment);
           entities := result.(entities); language := result.(language) |}
  else if str_eqb operation (s "sentiment") then
    tell (Dispatch operation) ;;
    v <- lift (analyze_sentiment cfg textblob nlp_processor text) ;;
    ret {| summary := result.(summary); sentiment := Some v;
           entities := result.(entities); language := result.(language) |}
  else if str_eqb operation (s "entities") then
    tell (Dispatch operation) ;;
    v <- lift (extract_entities cfg textblob nlp_processor text) ;;
    ret {| summary := result.(summary); sentiment := result.(sentiment);
           entities := Some v; language := result.(language) |}
  else if str_eqb operation (s "language") then
    tell (Dispatch operation) ;;
    v <- lift (detect_language textblob text) ;;
    ret {| summary := result.(summary); sentiment := result.(sentiment);
           entities := result.(entities); language := Some v |}
  else raise (unknown_operation operation).

Definition process_text (task : NLPTask) : M event AgentResponse :=
  try_except
    (if blank task.(task_text)
     then raise text_required
     else
       match task.(operations) with
       | [] => raise operation_required
       | _ =>
           result <- for_fold task.(operations) NLPResult_empty
                       (process_operation task.(task_text)) ;;
           ret {| success := true; data := Some result; error := None |}
       end)
    (fun e =>
       match e with
       | HTTPException _ _ => raise e
       | Exception message => ret (processing_failed message)
       end).

End Route.

(** The names [process_text] knows. *)
Definition supported (operation : str) : bool :=
  str_eqb operation (s "summarize") || str_eqb operation (s "sentiment")
  || str_eqb operation (s "entities") || str_eqb operation (s "language").

(** The operations dispatched, read off a log. *)
Definition dispatched (log : list event) : list str :=
  flat_map (fun ev => match ev with Dispatch op => [op] | Collaborator _ => [] end) log.

(** ** Stand-ins for the collaborators, to run the code on examples *)

Module StandIn.

(** [x.split()]. *)
Fixpoint split_ws (cur : str) (x : str) : list str :=
  match x with
  | [] => if truthy cur then [rev cur] else []
  | c :: rest =>
      if isspace c
      then (if truthy cur then rev cur :: split_ws [] rest else split_ws [] rest)
      else split_ws (c :: cur) rest
  end.

Definition is_terminator (c : ascii) : bool :=
  Ascii.eqb c "."%char || Ascii.eqb c "!"%char || Ascii.eqb c "?"%char.

(** Sentences end at [.], [!] or [?] followed by whitespace; the
    whitespace between sentences belongs to none. *)
Fixpoint sentences_of (cur : str) (x : str) : list str :=
  match x with
  | [] => if truthy cur then [rstrip (rev cur)] else []
  | c :: rest =>
      if isspace c && negb (truthy cur) then sentences_of [] rest
      else if is_terminator c && starts_ws rest
      then rev (c :: cur) :: sentences_of [] rest
      else sentences_of (c :: cur) rest
  end.

(** Words are runs of alphanumerics; any other visible character is a
    token of its own. *)
Fixpoint words_of (cur : str) (x : str) : list str :=
  let flush := if truthy cur then [rev cur] else [] in
  match x with
  | [] => flush
  | c :: rest =>
      if isalnum_char c then words_of (c :: cur) rest
      else if isspace c then flush ++ words_of [] rest
      else flush ++ [c] :: words_of [] rest
  end.

Definition nltk : Nltk :=
  {| sent_tokenize := sentences_of []; word_tokenize := words_of [] |}.

(** A TextBlob whose polarity is the same for every text. *)
Definition textblob (p : float) : TextBlob :=
  {| polarity := fun _ => Ok p;
     noun_phrases := fun text => Ok (split_ws [] (lower text));
     detect_language_of := fun _ => Ok (s "en") |}.

(** No model could be loaded. *)
Definition no_models : NLPProcessor :=
  {| nlp := None; sentiment_analyzer := None; summarizer := None |}.

(** An entity recognizer that tags every capitalised word a person. *)
Definition capitalised (w : str) : bool :=
  match w with
  | c :: _ => between 65 90 c
  | [] => false
  end.

Definition tag_names (input : str) : outcome (list (str * str)) :=
  Ok (map (fun w => (w, s "PERSON")) (filter capitalised (split_ws [] input))).

(** A sentiment model sure that every text is positive. *)
Definition always_positive (input : str) : outcome (list (str * float)) :=
  Ok [(s "LABEL_0", 1 # 20); (s "LABEL_1", 1 # 20); (s "LABEL_2", 9 # 10)].

(** A summarizer that keeps the head of the chunk. *)
Definition head_of_chunk (chunk : str) (max_length min_length : Z) : outcome str :=
  Ok (prefix chunk max_length).

Definition all_models : NLPProcessor :=
  {| nlp := Some tag_names;
     sentiment_analyzer := Some always_positive;
     summarizer := Some head_of_chunk |}.

(** A paragraph of 233 characters in four sentences. *)
Definition paragraph : str :=
  s "The river rose slowly through the night and covered the lower fields. By morning the old bridge was closed to all traffic. Farmers moved their cattle to higher ground before noon. Nobody in the village had seen the water so high."%string.

(** A sentence of 614 characters, and a text of eight of them. *)
Definition long_sentence : str :=
  s "The " ++ concat (repeat (s "very ") 120) ++ s "long road."%string.

Definition long_text : str := join (s " ") (repeat long_sentence 8).

(** One sentence, four times. *)
Definition refrain : str :=
  s "The cat sat. The cat sat. The cat sat. The cat sat.".

(** Six sentences, all different. *)
Definition animals : str :=
  s "Cats like fish daily. Dogs like bones. Cats chase mice. Birds sing songs. Fish swim. Cats sleep.".

(** Models that are loaded and fail on every call. *)
Definition broken_models : NLPProcessor :=
  {| nlp := Some (fun _ => Err (s "out of memory"));
     sentiment_analyzer := Some (fun _ => Err (s "out of memory"));
     summarizer := Some (fun _ _ _ => Err (s "out of memory")) |}.

(** Eleven first names. *)
Definition eleven_names : str :=
  s "Ann Bob Cid Dan Eve Fay Gus Hal Ian Jon Kim".

End StandIn.

(** ** main.py: the quick endpoints *)

(** What a quick endpoint answers: its payload, or the [error] entry.
    [processing_time_ms] is left out, as in [AgentResponse]. *)
Inductive quick_answer (A : Type) :=
| Payload (a : A)
| Failed (error : str).

Arguments Payload {A} a.
Arguments Failed {A} error.

Section QuickEndpoints.

Variable cfg : NLPConfig.
Variable nltk : Nltk.
Variable textblob : TextBlob.
Variable nlp_processor : NLPProcessor.

(** [str(e)]. *)
Variable str_of_exn : exn -> str.


Definition analyze_sentiment_only (text : str)
  : M event (quick_answer SentimentResult) :=
  try_except
    (tell (Dispatch (s "sentiment")) ;;
     v <- lift (analyze_sentiment cfg textblob nlp_processor text) ;;
     ret (Payload v))
    (fun e => ret (Failed (s "Sentiment analysis failed: " ++ str_of_exn e))).

End QuickEndpoints.

(** ** Notions used to state further properties *)

(** The characters of a string that are not whitespace, in order. *)
Definition visible (x : str) : str := filter (fun c => negb (isspace c)) x.

(** The test [extract_keywords] puts on a token. *)
Definition is_keyword (min_length : Z) (w : str) : bool :=
  isalnum w && (len w >? min_length).

(** How often a string occurs in a list. *)
Definition occurrences (w : str) (ws : list str) : Z :=
  Z.of_nat (count_occ (list_eq_dec ascii_dec) ws w).

(** The chunks of a state of the loop of [chunk_text] once the buffer is
    flushed, as the end of the function does. *)
Definition flushed (st : list str * str) : list str :=
  if truthy (snd st) then fst st ++ [strip (snd st)] else fst st.

(** Whether the field that an operation fills is set in a result. *)
Definition has_field (operation : str) (result : NLPResult) : bool :=
  if str_eqb operation (s "summarize") then
    match result.(summary) with Some _ => true | None => false end
  else if str_eqb operation (s "sentiment") then
    match result.(sentiment) with Some _ => true | None => false end
  else if str_eqb operation (s "entities") then
    match result.(entities) with Some _ => true | None => false end
  else if str_eqb operation (s "language") then
    match result.(language) with Some _ => true | None => false end
  else false.

(** The answer of [process_text] when every operation went through. *)
Definition succeeded (result : NLPResult) : AgentResponse :=
  {| success := true; data := Some result; error := None |}.

(** * Properties *)

(** ** Strings *)

Lemma str_eqb_eq x y : str_eqb x y = true <-> x = y.
Proof.
  unfold str_eqb. destruct (list_eq_dec ascii_dec x y); split; congruence.
Qed.

Lemma str_eqb_refl x : str_eqb x x = true.
Proof. now apply str_eqb_eq. Qed.

Lemma str_eqb_neq x y : str_eqb x y = false <-> x <> y.
Proof.
  unfold str_eqb. destruct (list_eq_dec ascii_dec x y); split; congruence.
Qed.

Lemma isspace_space : isspace space = true.
Proof. reflexivity. Qed.

Lemma lstrip_starts x : starts_ws (lstrip x) = false.
Proof.
  induction x as [|c rest IH]; simpl; [reflexivity|].
  destruct (isspace c) eqn:Hc; [exact IH|]. simpl. exact Hc.
Qed.

Lemma lstrip_fixed x : starts_ws x = false -> lstrip x = x.
Proof.
  destruct x as [|c rest]; simpl; [reflexivity|]. now intros ->.
Qed.

Lemma lstrip_app y z :
  starts_ws z = false -> lstrip (y ++ z) = lstrip y ++ z.
Proof.
  intros Hz. induction y as [|c rest IH]; simpl.
  - now apply lstrip_fixed.
  - destruct (isspace c); [exact IH | reflexivity].
Qed.

Lemma rstrip_ends x : ends_ws (rstrip x) = false.
Proof.
  unfold ends_ws, rstrip. rewrite rev_involutive. apply lstrip_starts.
Qed.

Lemma rstrip_fixed x : ends_ws x = false -> rstrip x = x.
Proof.
  unfold ends_ws, rstrip. intros H. rewrite (lstrip_fixed _ H).
  apply rev_involutive.
Qed.

Lemma rstrip_cons c rest :
  isspace c = false -> rstrip (c :: rest) = c :: rstrip rest.
Proof.
  intros Hc. unfold rstrip. simpl rev at 2.
  rewrite lstrip_app by (simpl; exact Hc).
  now rewrite rev_app_distr.
Qed.

Lemma rstrip_starts x : starts_ws x = false -> starts_ws (rstrip x) = false.
Proof.
  destruct x as [|c rest]; simpl; intros H; [reflexivity|].
  rewrite rstrip_cons by exact H. exact H.
Qed.

Lemma strip_starts x : starts_ws (strip x) = false.
Proof. apply rstrip_starts, lstrip_starts. Qed.

Lemma strip_ends x : ends_ws (strip x) = false.
Proof. apply rstrip_ends. Qed.

Lemma strip_fixed x :
  starts_ws x = false -> ends_ws x = false -> strip x = x.
Proof.
  intros Hs He. unfold strip. rewrite (lstrip_fixed _ Hs).
  now apply rstrip_fixed.
Qed.

(** A string that does not end in whitespace is empty or ends in a
    visible character. *)
Lemma ends_ws_false_inv x :
  ends_ws x = false ->
  x = [] \/ exists y c, x = y ++ [c] /\ isspace c = false.
Proof.
  unfold ends_ws. intros H.
  destruct (rev x) as [|c y] eqn:Hr.
  - left. apply (f_equal (@rev ascii)) in Hr.
    now rewrite rev_involutive in Hr.
  - right. exists (rev y), c. split; [|exact H].
    apply (f_equal (@rev ascii)) in Hr.
    now rewrite rev_involutive in Hr.
Qed.

Lemma ends_ws_snoc y c : ends_ws (y ++ [c]) = isspace c.
Proof. unfold ends_ws. now rewrite rev_app_distr. Qed.

(** ** The normalizer *)

Lemma sub_ws_snoc b x c :
  isspace c = false -> sub_ws b (x ++ [c]) = sub_ws b x ++ [c].
Proof.
  intros Hc. revert b.
  induction x as [|d rest IH]; intros b; simpl.
  - now rewrite Hc.
  - destruct (isspace d); [destruct b|]; simpl; now rewrite IH.
Qed.

Lemma sub_ws_ends b x : ends_ws x = false -> ends_ws (sub_ws b x) = false.
Proof.
  intros H. destruct (ends_ws_false_inv _ H) as [-> | (y & c & -> & Hc)].
  - reflexivity.
  - rewrite sub_ws_snoc by exact Hc. now rewrite ends_ws_snoc.
Qed.

Lemma sub_ws_in_run_starts x : starts_ws (sub_ws true x) = false.
Proof.
  induction x as [|c rest IH]; simpl; [reflexivity|].
  destruct (isspace c) eqn:Hc; [exact IH|]. simpl. exact Hc.
Qed.

Lemma sub_ws_starts x : starts_ws x = false -> starts_ws (sub_ws false x) = false.
Proof.
  destruct x as [|c rest]; simpl; [reflexivity|].
  intros Hc. rewrite Hc. simpl. exact Hc.
Qed.

Lemma sub_ws_no_run b x : no_ws_run (sub_ws b x) = true.
Proof.
  revert b. induction x as [|c rest IH]; intros b; simpl; [reflexivity|].
  destruct (isspace c) eqn:Hc.
  - destruct b; [apply IH|]. simpl.
    now rewrite sub_ws_in_run_starts, IH.
  - simpl. now rewrite Hc, IH.
Qed.

Lemma sub_ws_only_spaces b x : only_spaces (sub_ws b x).
Proof.
  revert b. induction x as [|c rest IH]; intros b; simpl; [constructor|].
  destruct (isspace c) eqn:Hc.
  - destruct b; [apply IH|]. constructor; [reflexivity | apply IH].
  - constructor; [congruence | apply IH].
Qed.

(** On a text whose whitespace is single spaces, the substitution
    changes nothing. *)
Lemma sub_ws_fixed b x :
  only_spaces x -> no_ws_run x = true ->
  (b = true -> starts_ws x = false) ->
  sub_ws b x = x.
Proof.
  revert b. induction x as [|c rest IH]; intros b Hsp Hrun Hb; [reflexivity|].
  inversion Hsp as [|? ? Hc Hrest]; subst.
  simpl in Hrun. apply andb_true_iff in Hrun as [Hhd Hrun].
  simpl. destruct (isspace c) eqn:Ec.
  - destruct b; [specialize (Hb eq_refl); simpl in Hb; congruence|].
    rewrite (Hc eq_refl). f_equal.
    apply IH; try assumption. intros _.
    simpl in Hhd. now destruct (starts_ws rest).
  - f_equal. apply IH; try assumption. discriminate.
Qed.

(** C8. The normalizer is idempotent, and what it returns has no two
    whitespace characters in a row and no whitespace at either end. *)
Theorem clean_text_idempotent_normal (x : str) :
  clean_text (clean_text x) = clean_text x
  /\ no_ws_run (clean_text x) = true
  /\ starts_ws (clean_text x) = false
  /\ ends_ws (clean_text x) = false.
Proof.
  assert (Hs : starts_ws (clean_text x) = false)
    by (apply sub_ws_starts, strip_starts).
  assert (He : ends_ws (clean_text x) = false)
    by (apply sub_ws_ends, strip_ends).
  assert (Hr : no_ws_run (clean_text x) = true) by apply sub_ws_no_run.
  repeat split; try assumption.
  unfold clean_text at 1. rewrite (strip_fixed _ Hs He).
  apply sub_ws_fixed; [apply sub_ws_only_spaces | exact Hr | discriminate].
Qed.

(** ** The chunker *)

Lemma has_solid_lstrip x : has_solid (lstrip x) = has_solid x.
Proof.
  induction x as [|c rest IH]; simpl; [reflexivity|].
  destruct (isspace c) eqn:Hc; simpl; [exact IH | now rewrite Hc].
Qed.

Lemma has_solid_rev x : has_solid (rev x) = has_solid x.
Proof.
  unfold has_solid.
  destruct (existsb _ x) eqn:E.
  - apply existsb_exists in E as (c & Hin & Hc).
    apply existsb_exists. exists c. split; [now apply in_rev in Hin | exact Hc].
  - destruct (existsb _ (rev x)) eqn:E'; [|reflexivity].
    apply existsb_exists in E' as (c & Hin & Hc).
    apply in_rev in Hin.
    assert (existsb (fun c => negb (isspace c)) x = true)
      by (apply existsb_exists; eauto).
    congruence.
Qed.

Lemma has_solid_strip x : has_solid (strip x) = has_solid x.
Proof.
  unfold strip, rstrip.
  now rewrite has_solid_rev, has_solid_lstrip, has_solid_rev, has_solid_lstrip.
Qed.

Lemma has_solid_app x y : has_solid (x ++ y) = has_solid x || has_solid y.
Proof. apply existsb_app. Qed.

Lemma has_solid_nonempty x : has_solid x = true -> x <> [].
Proof. now destruct x. Qed.

Lemma strip_trimmed_nonempty x : has_solid x = true -> trimmed_nonempty (strip x).
Proof.
  intros H. split; [|split].
  - apply has_solid_nonempty. now rewrite has_solid_strip.
  - apply strip_starts.
  - apply strip_ends.
Qed.

Lemma chunk_step_inv max_size st sentence :
  has_solid sentence = true ->
  chunker_inv st -> chunker_inv (chunk_step max_size st sentence).
Proof.
  intros Hs [Hchunks Hbuf]. destruct st as [chunks current_chunk].
  simpl in Hchunks, Hbuf. unfold chunk_step.
  destruct (len current_chunk + len sentence >? max_size).
  - split; simpl; [|now right].
    destruct current_chunk as [|c rest]; simpl; [exact Hchunks|].
    apply Forall_app. split; [exact Hchunks|].
    constructor; [|constructor].
    apply strip_trimmed_nonempty.
    destruct Hbuf as [Hbuf | Hbuf]; [discriminate | exact Hbuf].
  - split; [exact Hchunks|]. right. cbn [snd].
    rewrite has_solid_app.
    change (has_solid (s " " ++ sentence)) with (has_solid sentence).
    rewrite Hs. apply orb_true_r.
Qed.

Lemma chunk_fold_inv max_size sentences st :
  Forall (fun sentence => has_solid sentence = true) sentences ->
  chunker_inv st ->
  chunker_inv (fold_left (chunk_step max_size) sentences st).
Proof.
  intros Hall. revert st.
  induction Hall as [|sentence rest Hs _ IH]; intros st Hst; simpl.
  - exact Hst.
  - apply IH. now apply chunk_step_inv.
Qed.

Lemma chunk_sentences_trimmed max_size sentences :
  Forall (fun sentence => has_solid sentence = true) sentences ->
  Forall trimmed_nonempty (chunk_sentences max_size sentences).
Proof.
  intros Hall. unfold chunk_sentences.
  assert (Hinv : chunker_inv (fold_left (chunk_step max_size) sentences ([], []))).
  { apply chunk_fold_inv; [exact Hall|]. split; [constructor | now left]. }
  destruct (fold_left (chunk_step max_size) sentences ([], []))
    as [chunks current_chunk].
  destruct Hinv as [Hchunks Hbuf]. simpl in Hchunks, Hbuf.
  destruct current_chunk as [|c rest]; simpl; [exact Hchunks|].
  apply Forall_app. split; [exact Hchunks|].
  constructor; [|constructor].
  apply strip_trimmed_nonempty.
  destruct Hbuf as [Hbuf | Hbuf]; [discriminate | exact Hbuf].
Qed.

(** C10. When every sentence the tokenizer returns has a visible
    character, as nltk's sentences have, every chunk of [chunk_text] is a
    non-empty string with no whitespace at its start or end, whatever the
    text and the maximum chunk size. *)
Theorem chunk_text_chunks_trimmed_nonempty
  (cfg : NLPConfig) (nltk : Nltk) (text : str) (max_size : option Z) :
  Forall (fun sentence => has_solid sentence = true) (sent_tokenize nltk text) ->
  Forall trimmed_nonempty (chunk_text cfg nltk text max_size).
Proof.
  intros Hall. unfold chunk_text. now apply chunk_sentences_trimmed.
Qed.

(** C10, run on a text of three sentences cut at 20 characters. *)
Lemma chunk_text_chunks_trimmed_nonempty_witness :
  Forall trimmed_nonempty
    (chunk_text config StandIn.nltk
       (s "The cat sat. The dog ran. A bird flew away.") (Some 20)).
Proof.
  apply chunk_text_chunks_trimmed_nonempty.
  vm_compute. repeat constructor.
Defined.

(** C7. A text that is one sentence longer than the maximum chunk size
    gives exactly one chunk, the whole sentence (trimmed, as every chunk
    is): the sentence is not split. *)
Theorem chunk_text_long_sentence_one_chunk
  (cfg : NLPConfig) (nltk : Nltk) (text sentence : str) (max_size : Z) :
  sent_tokenize nltk text = [sentence] ->
  sentence <> [] ->
  len sentence > max_size ->
  chunk_text cfg nltk text (Some max_size) = [strip sentence]
  /\ (starts_ws sentence = false -> ends_ws sentence = false ->
      chunk_text cfg nltk text (Some max_size) = [sentence]).
Proof.
  intros Htok Hne Hlen.
  assert (H : chunk_text cfg nltk text (Some max_size) = [strip sentence]).
  { assert (E : (len [] + len sentence >? max_size) = true)
      by (apply Z.gtb_lt; unfold len in *; simpl; lia).
    unfold chunk_text, chunk_sentences, or_default. rewrite Htok.
    cbn [fold_left chunk_step]. rewrite E.
    destruct sentence; [congruence | reflexivity]. }
  split; [exact H|].
  intros Hs He. rewrite H. now rewrite strip_fixed.
Qed.

(** C7, run on a sentence of 29 characters with a maximum of 10. *)
Lemma chunk_text_long_sentence_one_chunk_witness :
  chunk_text config StandIn.nltk (s "A bird flew over the old barn.") (Some 10)
  = [s "A bird flew over the old barn."].
Proof.
  refine (proj2 (chunk_text_long_sentence_one_chunk config StandIn.nltk
                   (s "A bird flew over the old barn.")
                   (s "A bird flew over the old barn.") 10 _ _ _) _ _).
  - reflexivity.
  - discriminate.
  - reflexivity.
  - reflexivity.
  - reflexivity.
Defined.

(** After a sentence has gone through the loop, a chunk has been closed
    or the buffer is not empty. *)
Lemma chunk_step_progress max_size st sentence :
  0 <= max_size \/ sentence <> [] ->
  let st' := chunk_step max_size st sentence in
  fst st' <> [] \/ snd st' <> [].
Proof.
  intros Hok. destruct st as [chunks current_chunk]. unfold chunk_step.
  destruct (len current_chunk + len sentence >? max_size) eqn:E; cbn [fst snd].
  - destruct current_chunk as [|c rest]; simpl.
    + right. destruct Hok as [Hmax | Hne]; [|exact Hne].
      apply Z.gtb_lt in E. unfold len in E. simpl in E.
      destruct sentence; [simpl in E; lia | discriminate].
    + left. intros H. now apply app_eq_nil in H as [_ H].
  - right. intros H. apply app_eq_nil in H as [_ H]. discriminate.
Qed.

Lemma chunk_step_keeps max_size st sentence :
  fst st <> [] \/ snd st <> [] ->
  let st' := chunk_step max_size st sentence in
  fst st' <> [] \/ snd st' <> [].
Proof.
  intros Hst. destruct st as [chunks current_chunk]. unfold chunk_step.
  cbn [fst snd] in Hst.
  destruct (len current_chunk + len sentence >? max_size); cbn [fst snd].
  - left. destruct current_chunk as [|c rest]; simpl.
    + destruct Hst as [H | H]; [exact H | congruence].
    + intros H. now apply app_eq_nil in H as [_ H].
  - right. intros H. apply app_eq_nil in H as [_ H]. discriminate.
Qed.

Lemma chunk_fold_keeps max_size sentences st :
  fst st <> [] \/ snd st <> [] ->
  let st' := fold_left (chunk_step max_size) sentences st in
  fst st' <> [] \/ snd st' <> [].
Proof.
  revert st. induction sentences as [|sentence rest IH]; intros st Hst; simpl.
  - exact Hst.
  - apply IH. now apply chunk_step_keeps.
Qed.

Lemma chunk_sentences_nonempty max_size sentences :
  sentences <> [] ->
  0 <= max_size \/ Forall (fun sentence => sentence <> []) sentences ->
  chunk_sentences max_size sentences <> [].
Proof.
  intros Hne Hok. destruct sentences as [|sentence rest]; [congruence|].
  unfold chunk_sentences. cbn [fold_left].
  remember (fold_left (chunk_step max_size) rest
              (chunk_step max_size ([], []) sentence)) as st' eqn:Est.
  assert (Hst : fst st' <> [] \/ snd st' <> []).
  { subst st'. apply chunk_fold_keeps, chunk_step_progress.
    destruct Hok as [H | H]; [now left | right; now inversion H]. }
  destruct st' as [chunks current_chunk].
  cbn [fst snd] in Hst.
  destruct current_chunk as [|c rest']; simpl.
  - destruct Hst as [H | H]; [exact H | congruence].
  - intros H. now apply app_eq_nil in H as [_ H].
Qed.

(** A text the normalizer returns non-empty has a visible character. *)
Lemma clean_text_has_solid text :
  clean_text text <> [] -> has_solid (clean_text text) = true.
Proof.
  intros Hne.
  assert (Hs : starts_ws (clean_text text) = false)
    by (apply sub_ws_starts, strip_starts).
  destruct (clean_text text) as [|c rest]; [congruence|].
  simpl in *. now rewrite Hs.
Qed.

(** ** Logs of computations *)

Lemma bind_log {E A B} (m : M E A) (f : A -> M E B) :
  snd (bind m f)
  = snd m ++ match fst m with inr a => snd (f a) | inl _ => [] end.
Proof.
  destruct m as [[e | a] log]; simpl.
  - now rewrite app_nil_r.
  - now destruct (f a).
Qed.

Lemma bind_fst_raise {E A B} (m : M E A) (f : A -> M E B) e :
  fst m = inl e -> fst (bind m f) = inl e.
Proof. destruct m as [[e' | a] log]; simpl; congruence. Qed.


Lemma try_except_log {E A} (m : M E A) (handler : exn -> M E A) :
  snd (try_except m handler)
  = snd m ++ match fst m with inl e => snd (handler e) | inr _ => [] end.
Proof.
  destruct m as [[e | a] log]; simpl.
  - now destruct (handler e).
  - now rewrite app_nil_r.
Qed.

Lemma try_except_fst {E A} (m : M E A) (handler : exn -> M E A) :
  fst (try_except m handler)
  = match fst m with inl e => fst (handler e) | inr a => inr a end.
Proof.
  destruct m as [[e | a] log]; simpl; [|reflexivity]. now destruct (handler e).
Qed.

(** A loop whose body logs one call per turn leaves the calls of the
    turns it reached. *)
Lemma for_each_log_prefix {E A B} (g : A -> E) (xs : list A) (body : A -> M E B) :
  (forall x, In x xs -> snd (body x) = [g x]) ->
  exists k, snd (for_each xs body) = map g (firstn k xs).
Proof.
  induction xs as [|x rest IH]; intros Hbody.
  - now exists 0%nat.
  - simpl for_each. rewrite bind_log, (Hbody x (in_eq _ _)).
    destruct (fst (body x)) as [e | y].
    + now exists 1%nat.
    + destruct IH as [k Hk]; [intros; apply Hbody; now right|].
      exists (S k). rewrite bind_log, Hk.
      destruct (fst (for_each rest body)); simpl; now rewrite app_nil_r.
Qed.

Lemma In_firstn {A} n (xs : list A) x : In x (firstn n xs) -> In x xs.
Proof.
  intros H. rewrite <- (firstn_skipn n xs). apply in_or_app. now left.
Qed.

Lemma take_3 {A} (xs : list A) : take xs 3 = firstn 3 xs.
Proof. reflexivity. Qed.

Lemma take_3_length {A} (xs : list A) : (length (take xs 3) <= 3)%nat.
Proof. rewrite take_3. apply firstn_le_length. Qed.

Lemma take_3_incl {A} (xs : list A) x : In x (take xs 3) -> In x xs.
Proof. rewrite take_3. apply In_firstn. Qed.

(** ** The facade: what [summarize_text] hands to whom *)

Lemma of_outcome_log {E A} (o : outcome A) : snd (@of_outcome E A o) = [].
Proof. now destruct o. Qed.

Section SummarizeLog.

Variable cfg : NLPConfig.
Variable nltk : Nltk.
Variable self : NLPProcessor.
Variable text : str.
Variable max_length : option Z.

Let limit := or_default max_length cfg.(summary_max_length).
Let cleaned := clean_text text.
Let chunks := chunk_text cfg nltk cleaned None.

(** The log of [summarize_text]: the summarizer calls of the chunks it
    reached among the first three, then at most one call of the
    extractive fallback, on the cleaned text. *)
Lemma summarize_text_log :
  exists k fallback_calls,
    snd (summarize_text cfg nltk self text max_length)
    = map (summarizer_call limit (length chunks)) (firstn k (take chunks 3))
      ++ fallback_calls
    /\ (fallback_calls = [] \/ fallback_calls = [ExtractiveSummary cleaned limit]).
Proof.
  unfold summarize_text. fold limit. fold cleaned. fold chunks.
  destruct (negb (truthy text) || (len (strip text) <? 50)).
  { exists 0%nat, []. split; [reflexivity | now left]. }
  assert (Hfb : exists fallback_calls,
             snd (tell (ExtractiveSummary cleaned limit) ;;
                  ret (_extractive_summary nltk cleaned limit))%monad
             = map (summarizer_call limit (length chunks)) (firstn 0 (take chunks 3))
               ++ fallback_calls
             /\ (fallback_calls = [] \/ fallback_calls = [ExtractiveSummary cleaned limit])).
  { eexists. split; [reflexivity | now right]. }
  destruct (summarizer self) as [model|]; [|exists 0%nat; exact Hfb].
  destruct (len cleaned >? 200); [|exists 0%nat; exact Hfb].
  rewrite try_except_log, bind_log.
  destruct (for_each_log_prefix (summarizer_call limit (length chunks))
              (take chunks 3)
              (fun chunk =>
                 budget <- floordiv limit (Z.of_nat (length chunks)) ;;
                 tell (Summarizer chunk (Z.min budget 130) 20) ;;
                 of_outcome (model chunk (Z.min budget 130) 20))%monad)
    as [k Hk].
  { intros chunk Hin. apply take_3_incl in Hin.
    unfold floordiv.
    destruct (Z.of_nat (length chunks) =? 0) eqn:E.
    - apply Z.eqb_eq in E. destruct chunks; [contradiction | simpl in E; lia].
    - rewrite bind_log. cbn [ret fst snd app].
      rewrite bind_log. cbn [tell fst snd]. now rewrite of_outcome_log. }
  rewrite Hk. exists k.
  match goal with
  | |- context [fst (bind ?m ?f)] => destruct (fst (bind m f)) as [e | v]
  end.
  - eexists. split; [|right; reflexivity].
    match goal with
    | |- context [fst ?m] => destruct (fst m)
    end; simpl; now rewrite ?app_nil_r.
  - exists []. split; [|now left].
    match goal with
    | |- context [fst ?m] => destruct (fst m)
    end; simpl; now rewrite ?app_nil_r.
Qed.

End SummarizeLog.

(** C9. On the model path of [summarize_text] (a summarizer is loaded and
    the cleaned text is longer than 200 characters), with a chunk size
    that is not negative and a tokenizer that finds a sentence in a text
    that has a visible character, [chunk_text] returns at least one
    chunk, so [max_length // len(chunks)] does not divide by zero. *)
Theorem summarize_text_model_path_chunks_nonempty
  (cfg : NLPConfig) (nltk : Nltk) (self : NLPProcessor)
  (model : str -> Z -> Z -> outcome str) (text : str) (max_length : Z) :
  self.(summarizer) = Some model ->
  len (clean_text text) > 200 ->
  0 <= cfg.(max_chunk_size) ->
  (has_solid (clean_text text) = true ->
   sent_tokenize nltk (clean_text text) <> []) ->
  let chunks := chunk_text cfg nltk (clean_text text) None in
  chunks <> []
  /\ @floordiv call max_length (Z.of_nat (length chunks))
     = ret (max_length / Z.of_nat (length chunks)).
Proof.
  intros _ Hlen Hmax Htok chunks.
  assert (Hne : chunks <> []).
  { apply chunk_sentences_nonempty; [|now left].
    apply Htok, clean_text_has_solid.
    intros E. rewrite E in Hlen. unfold len in Hlen. simpl in Hlen. lia. }
  split; [exact Hne|].
  unfold floordiv.
  destruct (Z.of_nat (length chunks) =? 0) eqn:E; [|reflexivity].
  apply Z.eqb_eq in E. destruct chunks; [congruence | simpl in E; lia].
Qed.

(** C9, run on a paragraph of 233 characters. *)
Lemma summarize_text_model_path_chunks_nonempty_witness :
  chunk_text config StandIn.nltk (clean_text StandIn.paragraph) None <> []
  /\ @floordiv call 150
       (Z.of_nat (length (chunk_text config StandIn.nltk
                            (clean_text StandIn.paragraph) None)))
     = ret (150 / Z.of_nat (length (chunk_text config StandIn.nltk
                                      (clean_text StandIn.paragraph) None))).
Proof.
  apply (summarize_text_model_path_chunks_nonempty
           config StandIn.nltk StandIn.all_models StandIn.head_of_chunk
           StandIn.paragraph 150).
  - reflexivity.
  - reflexivity.
  - discriminate.
  - intros _. vm_compute. discriminate.
Defined.

Lemma filter_summarizer_calls limit n (xs : list str) :
  filter is_summarizer_call (map (summarizer_call limit n) xs)
  = map (summarizer_call limit n) xs.
Proof. induction xs as [|x rest IH]; simpl; [reflexivity | now rewrite IH]. Qed.

Lemma floor_reached (limit n : Z) :
  0 < n -> (20 <= Z.min (limit / n) 130 <-> 20 * n <= limit).
Proof.
  intros Hn. split; intros H.
  - assert (20 <= limit / n) by lia.
    pose proof (Z.mul_div_le limit n Hn). nia.
  - assert (20 <= limit / n) by (apply Z.div_le_lower_bound; lia). lia.
Qed.

(** C6, as the code has it.  Every call to the summarizer is for one of
    the chunks, there are at most three, and each passes as [max_length]
    the budget [min(max_length // len(chunks), 130)], where [len(chunks)]
    counts all the chunks, and as [min_length] the constant 20.  The
    budget is at most 130; it reaches 20 exactly when
    [max_length >= 20 * len(chunks)]. *)
Theorem summarize_text_chunk_budget
  (cfg : NLPConfig) (nltk : Nltk) (self : NLPProcessor)
  (text : str) (max_length : option Z) :
  let limit := or_default max_length cfg.(summary_max_length) in
  let chunks := chunk_text cfg nltk (clean_text text) None in
  let log := snd (summarize_text cfg nltk self text max_length) in
  (length (filter is_summarizer_call log) <= 3)%nat
  /\ forall chunk budget floor,
       In (Summarizer chunk budget floor) log ->
       In chunk chunks
       /\ budget = Z.min (limit / Z.of_nat (length chunks)) 130
       /\ budget <= 130
       /\ floor = 20
       /\ (20 <= budget <-> 20 * Z.of_nat (length chunks) <= limit).
Proof.
  intros limit chunks log.
  destruct (summarize_text_log cfg nltk self text max_length)
    as (k & fallback_calls & Hlog & Hfb).
  fold limit chunks log in Hlog.
  split.
  - rewrite Hlog, filter_app, filter_summarizer_calls, length_app, length_map.
    assert (length (firstn k (take chunks 3)) <= 3)%nat.
    { rewrite length_firstn. pose proof (take_3_length chunks). lia. }
    destruct Hfb as [-> | ->]; simpl; lia.
  - intros chunk budget floor Hin. rewrite Hlog in Hin.
    apply in_app_or in Hin as [Hin | Hin].
    + apply in_map_iff in Hin as (chunk' & Hcall & Hin).
      unfold summarizer_call in Hcall. injection Hcall as -> Hb Hf.
      apply In_firstn, take_3_incl in Hin.
      assert (Hpos : 0 < Z.of_nat (length chunks))
        by (destruct chunks; [contradiction | simpl; lia]).
      repeat split; try (now subst); try (subst budget; lia).
      * subst budget. now apply floor_reached.
      * subst budget. now apply floor_reached.
    + destruct Hfb as [-> | ->]; [contradiction|].
      destruct Hin as [Hin | []]. discriminate.
Qed.

(** C6 fails as stated: with the default [max_length] of 150, a text of
    eight chunks gives each of the three summarizer calls a budget of 18,
    below the 20 passed as [min_length]. *)
Lemma summarize_text_budget_below_20 :
  summarizer_budgets
    (snd (summarize_text config StandIn.nltk StandIn.all_models
            StandIn.long_text None))
  = [(18, 20); (18, 20); (18, 20)].
Proof. vm_compute. reflexivity. Qed.

(** ** The facade: which text each capability hands on *)

Lemma summarize_text_consumes
  (cfg : NLPConfig) (nltk : Nltk) (self : NLPProcessor)
  (text : str) (max_length : option Z) (c : call) :
  In c (snd (summarize_text cfg nltk self text max_length)) ->
  (is_summarizer_call c = true
   /\ In (consumed c) (chunk_text cfg nltk (clean_text text) None))
  \/ (is_summarizer_call c = false /\ consumed c = clean_text text).
Proof.
  destruct (summarize_text_log cfg nltk self text max_length)
    as (k & fallback_calls & -> & Hfb).
  intros Hin. apply in_app_or in Hin as [Hin | Hin].
  - left. apply in_map_iff in Hin as (chunk & <- & Hin).
    split; [reflexivity|]. simpl. now apply In_firstn, take_3_incl in Hin.
  - right. destruct Hfb as [-> | ->]; [contradiction|].
    destruct Hin as [<- | []]. now split.
Qed.

Lemma analyze_sentiment_consumes
  (cfg : NLPConfig) (textblob : TextBlob) (self : NLPProcessor)
  (text : str) (c : call) :
  In c (snd (analyze_sentiment cfg textblob self text)) ->
  c = SentimentAnalyzer (prefix text 512) \/ c = TextBlobSentiment text.
Proof.
  unfold analyze_sentiment.
  destruct (negb (truthy text)); [intros []|].
  assert (Hfb : forall A (k : float -> M call A),
             In c (snd (tell (TextBlobSentiment text) ;;
                        p <- of_outcome (textblob.(polarity) text) ;; k p)%monad) ->
             (forall p, snd (k p) = []) ->
             c = TextBlobSentiment text).
  { intros A k Hin Hk. rewrite bind_log in Hin. cbn [tell fst snd app] in Hin.
    rewrite bind_log, of_outcome_log in Hin.
    destruct (fst (of_outcome (polarity textblob text))); simpl in Hin;
      try rewrite Hk in Hin; destruct Hin as [<- | []]; reflexivity. }
  destruct (sentiment_analyzer self) as [model|].
  - rewrite try_except_log, bind_log. cbn [tell fst snd app].
    rewrite bind_log, of_outcome_log. cbn [app].
    intros [<- | Hin]; [now left|]. right.
    destruct (model (prefix text 512)) as [results | message]; cbn in Hin.
    + destruct results as [|r rest]; cbn in Hin.
      * eapply Hfb; [exact Hin | reflexivity].
      * contradiction.
    + eapply Hfb; [exact Hin | reflexivity].
  - intros Hin. right. eapply Hfb; [exact Hin | reflexivity].
Qed.

Lemma extract_entities_consumes
  (cfg : NLPConfig) (textblob : TextBlob) (self : NLPProcessor)
  (text : str) (c : call) :
  In c (snd (extract_entities cfg textblob self text)) ->
  c = Spacy (prefix text 1000) \/ c = TextBlobNounPhrases text.
Proof.
  unfold extract_entities.
  assert (Hfb : forall A (k : list str -> M call A),
             In c (snd (tell (TextBlobNounPhrases text) ;;
                        p <- of_outcome (textblob.(noun_phrases) text) ;; k p)%monad) ->
             (forall p, snd (k p) = []) ->
             c = TextBlobNounPhrases text).
  { intros A k Hin Hk. rewrite bind_log in Hin. cbn [tell fst snd app] in Hin.
    rewrite bind_log, of_outcome_log in Hin.
    destruct (fst (of_outcome (noun_phrases textblob text))); simpl in Hin;
      try rewrite Hk in Hin; destruct Hin as [<- | []]; reflexivity. }
  destruct (nlp self) as [model|].
  - rewrite try_except_log, bind_log. cbn [tell fst snd app].
    rewrite bind_log, of_outcome_log. cbn [app].
    intros [<- | Hin]; [now left|]. right.
    destruct (model (prefix text 1000)) as [ents | message]; cbn in Hin.
    + contradiction.
    + eapply Hfb; [exact Hin | reflexivity].
  - intros Hin. right. eapply Hfb; [exact Hin | reflexivity].
Qed.

Lemma detect_language_consumes (textblob : TextBlob) (text : str) (c : call) :
  In c (snd (detect_language textblob text)) -> c = TextBlobLanguage text.
Proof.
  unfold detect_language.
  rewrite try_except_log, bind_log. cbn [tell fst snd app].
  rewrite bind_log, of_outcome_log. cbn [app].
  intros [<- | Hin]; [reflexivity|].
  destruct (detect_language_of textblob text); cbn in Hin; contradiction.
Qed.

(** C4, as the code has it.  Only [summarize_text] normalizes: its
    summarizer receives chunks of the normalized text and its extractive
    fallback the normalized text.  [analyze_sentiment], [extract_entities]
    and [detect_language] hand on the text as it came: its first 512,
    resp. 1000, characters to the model, all of it to TextBlob. *)
Theorem capabilities_consume
  (cfg : NLPConfig) (nltk : Nltk) (textblob : TextBlob) (self : NLPProcessor)
  (text : str) (max_length : option Z) (c : call) :
  (In c (snd (summarize_text cfg nltk self text max_length)) ->
   (is_summarizer_call c = true
    /\ In (consumed c) (chunk_text cfg nltk (clean_text text) None))
   \/ (is_summarizer_call c = false /\ consumed c = clean_text text))
  /\ (In c (snd (analyze_sentiment cfg textblob self text)) ->
      c = SentimentAnalyzer (prefix text 512) \/ c = TextBlobSentiment text)
  /\ (In c (snd (extract_entities cfg textblob self text)) ->
      c = Spacy (prefix text 1000) \/ c = TextBlobNounPhrases text)
  /\ (In c (snd (detect_language textblob text)) ->
      c = TextBlobLanguage text).
Proof.
  split; [apply summarize_text_consumes|].
  split; [apply analyze_sentiment_consumes|].
  split; [apply extract_entities_consumes | apply detect_language_consumes].
Qed.

(** C4 fails as stated: [analyze_sentiment] hands its model the text with
    its double space, which the normalizer would have collapsed. *)
Lemma analyze_sentiment_consumes_raw_text :
  snd (analyze_sentiment config (StandIn.textblob f0_0) StandIn.all_models
         (s "good  day"))
  = [SentimentAnalyzer (s "good  day")]
  /\ s "good  day" <> clean_text (s "good  day")
  /\ no_ws_run (s "good  day") = false.
Proof. repeat split. discriminate. Qed.

(** ** Entities *)

Lemma take_length_le {A} (xs : list A) (n : Z) :
  0 <= n -> Z.of_nat (length (take xs n)) <= n.
Proof.
  intros Hn. unfold take.
  replace (0 <=? n) with true by (symmetry; now apply Z.leb_le).
  pose proof (firstn_le_length (Z.to_nat n) xs). lia.
Qed.

(** On the noun-phrase path the result is cut to the configured count. *)
Lemma extract_entities_fallback_truncated
  (cfg : NLPConfig) (textblob : TextBlob) (self : NLPProcessor)
  (text : str) (found : list EntityResult) :
  self.(nlp) = None ->
  0 <= cfg.(max_entities) ->
  fst (extract_entities cfg textblob self text) = inr found ->
  Z.of_nat (length found) <= cfg.(max_entities).
Proof.
  unfold extract_entities. intros -> Hmax H.
  destruct (noun_phrases textblob text) as [phrases | message]; cbn in H.
  - injection H as <-. now apply take_length_le.
  - discriminate.
Qed.

(** C1 fails on the model path: its [return entities] comes before the
    cut.  Eleven names recognized by the model come back as eleven
    entities although [max_entities] is 10; the noun-phrase path cuts the
    same eleven down to ten. *)
Theorem extract_entities_model_path_not_truncated :
  max_entities config = 10
  /\ (exists found,
        fst (extract_entities config (StandIn.textblob f0_0) StandIn.all_models
               StandIn.eleven_names) = inr found
        /\ length found = 11%nat)
  /\ (exists found,
        fst (extract_entities config (StandIn.textblob f0_0) StandIn.no_models
               StandIn.eleven_names) = inr found
        /\ length found = 10%nat).
Proof.
  split; [reflexivity|].
  split; eexists; split; reflexivity.
Qed.

(** ** Sentiment *)

Lemma Qlt_bool_true x y : Qlt_bool x y = true -> (x < y)%Q.
Proof.
  unfold Qlt_bool. intros H. apply negb_true_iff in H.
  apply Qnot_le_lt. intros Hle. apply Qle_bool_iff in Hle. congruence.
Qed.

Lemma Qlt_bool_false x y : Qlt_bool x y = false -> (y <= x)%Q.
Proof.
  unfold Qlt_bool. intros H. apply negb_false_iff in H.
  now apply Qle_bool_iff.
Qed.

Lemma max_by_score_in best xs :
  max_by_score best xs = best \/ In (max_by_score best xs) xs.
Proof.
  revert best. induction xs as [|x rest IH]; intros best; simpl.
  - now left.
  - destruct (IH (if Qlt_bool (snd best) (snd x) then x else best)) as [H | H].
    + rewrite H. destruct (Qlt_bool (snd best) (snd x)); [right | left]; auto.
    + right. now right.
Qed.







(** ** The extractive summarizer *)

(** A text of at most two sentences is returned as it is. *)
Lemma extractive_summary_short (nltk : Nltk) (text : str) (max_length : Z) :
  (length (sent_tokenize nltk text) <= 2)%nat ->
  _extractive_summary nltk text max_length = text.
Proof.
  intros H. unfold _extractive_summary.
  replace (Z.of_nat (length (sent_tokenize nltk text)) <=? 2) with true
    by (symmetry; apply Z.leb_le; lia).
  reflexivity.
Qed.

(** The summary keeps sentences of the text in the order of the text. *)
Lemma summary_of_sentences_in_order (nltk : Nltk) (text : str) (sentences : list str) :
  exists keep, summary_of_sentences nltk text sentences = filter keep sentences.
Proof. unfold summary_of_sentences. eexists. reflexivity. Qed.

Lemma mem_In x xs : mem x xs = true <-> In x xs.
Proof.
  unfold mem. rewrite existsb_exists. split.
  - intros (y & Hin & Heq). apply str_eqb_eq in Heq. now subst.
  - intros Hin. exists x. split; [exact Hin | apply str_eqb_refl].
Qed.

Lemma dict_set_keys_fresh {V} (d : Dict.t V) k v :
  ~ In k (Dict.keys d) -> Dict.keys (Dict.set d k v) = Dict.keys d ++ [k].
Proof.
  induction d as [|[k' v'] rest IH]; intros Hfresh; [reflexivity|].
  cbn in Hfresh |- *.
  destruct (str_eqb k' k) eqn:E.
  - apply str_eqb_eq in E. tauto.
  - cbn. f_equal. apply IH. tauto.
Qed.

(** Scoring pairwise distinct sentences gives one entry per sentence, in
    the order of the text. *)
Lemma fold_set_keys {V} (f : str -> V) (xs : list str) (d : Dict.t V) :
  NoDup (Dict.keys d ++ xs) ->
  Dict.keys (fold_left (fun d x => Dict.set d x (f x)) xs d) = Dict.keys d ++ xs.
Proof.
  revert d. induction xs as [|x rest IH]; intros d Hnd; cbn [fold_left].
  - now rewrite app_nil_r.
  - assert (Hfresh : ~ In x (Dict.keys d)).
    { apply NoDup_remove_2 in Hnd. intros Hin. apply Hnd, in_or_app. now left. }
    rewrite IH; rewrite (dict_set_keys_fresh d x (f x) Hfresh), <- app_assoc;
      [reflexivity | exact Hnd].
Qed.

Lemma insert_desc_perm x xs : Permutation (insert_desc x xs) (x :: xs).
Proof.
  induction xs as [|y rest IH]; cbn; [reflexivity|].
  destruct (snd y <=? snd x); [reflexivity|].
  rewrite IH. apply perm_swap.
Qed.

Lemma sorted_desc_perm items : Permutation (sorted_desc items) items.
Proof.
  induction items as [|x rest IH]; cbn; [reflexivity|].
  rewrite insert_desc_perm. now constructor.
Qed.

Lemma NoDup_firstn {A} n (xs : list A) : NoDup xs -> NoDup (firstn n xs).
Proof.
  intros H. rewrite <- (firstn_skipn n xs) in H.
  now apply NoDup_app_remove_r in H.
Qed.

(** Keeping the members of a duplicate-free selection out of a
    duplicate-free list keeps as many as were selected. *)
Lemma filter_mem_length (selected xs : list str) :
  NoDup xs -> NoDup selected -> incl selected xs ->
  length (filter (fun x => mem x selected) xs) = length selected.
Proof.
  intros Hxs Hsel Hincl. apply Permutation_length, NoDup_Permutation.
  - now apply NoDup_filter.
  - exact Hsel.
  - intros x. rewrite filter_In, mem_In. split; [tauto|].
    intros Hin. split; [now apply Hincl | exact Hin].
Qed.

(** When the sentences of the text are pairwise distinct, the summary has
    [min(3, len(sentences) // 2)] of them. *)
Lemma summary_of_distinct_sentences_length
  (nltk : Nltk) (text : str) (sentences : list str) :
  NoDup sentences ->
  Z.of_nat (length (summary_of_sentences nltk text sentences))
  = Z.min 3 (Z.of_nat (length sentences) / 2).
Proof.
  intros Hnd. unfold summary_of_sentences.
  match goal with |- context [sorted_desc ?d] => set (scores := d) end.
  set (count := Z.min 3 (Z.of_nat (length sentences) / 2)).
  assert (Hkeys : Dict.keys scores = sentences)
    by (unfold scores; now rewrite fold_set_keys).
  assert (Hcount : 0 <= count <= Z.of_nat (length sentences)).
  { unfold count.
    pose proof (Z.div_pos (Z.of_nat (length sentences)) 2 ltac:(lia) ltac:(lia)).
    pose proof (Z.div_le_upper_bound (Z.of_nat (length sentences)) 2
                  (Z.of_nat (length sentences)) ltac:(lia) ltac:(lia)).
    lia. }
  assert (Hperm : Permutation (map fst (sorted_desc scores)) sentences).
  { rewrite <- Hkeys. unfold Dict.keys. apply Permutation_map, sorted_desc_perm. }
  unfold take. replace (0 <=? count) with true by (symmetry; apply Z.leb_le; lia).
  rewrite <- firstn_map, filter_mem_length.
  - rewrite length_firstn, (Permutation_length Hperm). lia.
  - exact Hnd.
  - apply NoDup_firstn. apply (Permutation_NoDup (Permutation_sym Hperm) Hnd).
  - intros x Hin. apply In_firstn in Hin. now apply (Permutation_in _ Hperm).
Qed.

(** C5 fails when the text repeats a sentence.  The scores are kept in a
    dict keyed by the sentence, so the four equal sentences of this text
    are one entry; it is selected, and the loop that emits the selected
    sentences then emits all four, where [min(3, 4 // 2)] is 2.  The
    summary is the whole text. *)
Theorem extractive_summary_repeated_sentence :
  let sentences := sent_tokenize StandIn.nltk StandIn.refrain in
  length sentences = 4%nat
  /\ Z.min 3 (Z.of_nat (length sentences) / 2) = 2
  /\ length (summary_of_sentences StandIn.nltk StandIn.refrain sentences) = 4%nat
  /\ _extractive_summary StandIn.nltk StandIn.refrain 150 = StandIn.refrain.
Proof. repeat split. Qed.

(** ** The route *)

Lemma dispatched_app l1 l2 :
  dispatched (l1 ++ l2) = dispatched l1 ++ dispatched l2.
Proof. apply flat_map_app. Qed.

Lemma dispatched_collaborators calls : dispatched (map Collaborator calls) = [].
Proof. induction calls as [|c rest IH]; simpl; [reflexivity | exact IH]. Qed.

(** One dispatch: the operation is recorded once, and the outcome is
    that of the facade method. *)
Lemma dispatch_step {A} (op : str) (method : M call A) (store : A -> NLPResult) :
  let m := (tell (Dispatch op) ;; v <- lift method ;; ret (store v))%monad in
  dispatched (snd m) = [op]
  /\ (forall e, fst method = inl e -> fst m = inl e)
  /\ (forall v, fst method = inr v -> fst m = inr (store v)).
Proof.
  destruct method as [[e | v] calls]; cbn;
    rewrite ?app_nil_r, dispatched_collaborators;
    repeat split; congruence.
Qed.

Lemma summarize_text_returns cfg nltk self text max_length :
  exists v, fst (summarize_text cfg nltk self text max_length) = inr v.
Proof.
  unfold summarize_text.
  destruct (negb (truthy text) || (len (strip text) <? 50)); [now eexists|].
  destruct (summarizer self); [|now eexists].
  destruct (len (clean_text text) >? 200); [|now eexists].
  rewrite try_except_fst.
  match goal with |- context [match fst ?m with _ => _ end] => destruct (fst m) end;
    now eexists.
Qed.

Lemma analyze_sentiment_raises cfg textblob self text e :
  fst (analyze_sentiment cfg textblob self text) = inl e ->
  exists message, e = Exception message.
Proof.
  unfold analyze_sentiment.
  destruct (negb (truthy text)); [discriminate|].
  assert (Hfb : fst (tell (TextBlobSentiment text) ;;
                     polarity <- of_outcome (textblob.(polarity) text) ;;
                     ret (polarity_sentiment polarity))%monad = inl e ->
                exists message, e = Exception message).
  { destruct (polarity textblob text); cbn; [discriminate|].
    intros [= <-]. now eexists. }
  destruct (sentiment_analyzer self) as [model|]; [|exact Hfb].
  rewrite try_except_fst.
  match goal with |- context [match fst ?m with _ => _ end] => destruct (fst m) end;
    [exact Hfb | discriminate].
Qed.

Lemma extract_entities_raises cfg textblob self text e :
  fst (extract_entities cfg textblob self text) = inl e ->
  exists message, e = Exception message.
Proof.
  unfold extract_entities.
  assert (Hfb : forall A (k : list str -> A),
             fst (tell (TextBlobNounPhrases text) ;;
                  phrases <- of_outcome (textblob.(noun_phrases) text) ;;
                  ret (k phrases))%monad = inl e ->
             exists message, e = Exception message).
  { intros A k. destruct (noun_phrases textblob text); cbn; [discriminate|].
    intros [= <-]. now eexists. }
  destruct (nlp self) as [model|]; [|apply Hfb].
  rewrite try_except_fst.
  match goal with |- context [match fst ?m with _ => _ end] => destruct (fst m) end;
    [apply Hfb | discriminate].
Qed.

Lemma detect_language_returns textblob text :
  exists v, fst (detect_language textblob text) = inr v.
Proof.
  unfold detect_language. rewrite try_except_fst.
  match goal with |- context [match fst ?m with _ => _ end] => destruct (fst m) end;
    now eexists.
Qed.

Section RouteProperties.

Variable cfg : NLPConfig.
Variable nltk : Nltk.
Variable textblob : TextBlob.
Variable nlp_processor : NLPProcessor.
Variable text : str.

Let step := process_operation cfg nltk textblob nlp_processor text.

(** A supported operation is dispatched once, and raises nothing but a
    plain exception. *)
Lemma process_operation_supported (result : NLPResult) (op : str) :
  supported op = true ->
  dispatched (snd (step result op)) = [op]
  /\ forall e, fst (step result op) = inl e -> exists message, e = Exception message.
Proof.
  unfold supported, step, process_operation. intros Hop.
  destruct (str_eqb op (s "summarize")).
  { match goal with
    | |- context [bind (tell _) (fun _ => bind (lift ?X) (fun v => ret (@?k v)))] =>
        destruct (dispatch_step op X k) as (Hd & Hraise & Hret)
    end.
    split; [exact Hd|]. intros e He.
    destruct (summarize_text_returns cfg nltk nlp_processor text None) as [v Hv].
    rewrite (Hret _ Hv) in He. discriminate. }
  destruct (str_eqb op (s "sentiment")).
  { match goal with
    | |- context [bind (tell _) (fun _ => bind (lift ?X) (fun v => ret (@?k v)))] =>
        destruct (dispatch_step op X k) as (Hd & Hraise & Hret)
    end.
    split; [exact Hd|]. intros e He.
    destruct (fst (analyze_sentiment cfg textblob nlp_processor text))
      as [e' | v] eqn:Hm.
    - rewrite (Hraise _ eq_refl) in He. injection He as <-.
      now apply (analyze_sentiment_raises cfg textblob nlp_processor text).
    - rewrite (Hret _ eq_refl) in He. discriminate. }
  destruct (str_eqb op (s "entities")).
  { match goal with
    | |- context [bind (tell _) (fun _ => bind (lift ?X) (fun v => ret (@?k v)))] =>
        destruct (dispatch_step op X k) as (Hd & Hraise & Hret)
    end.
    split; [exact Hd|]. intros e He.
    destruct (fst (extract_entities cfg textblob nlp_processor text))
      as [e' | v] eqn:Hm.
    - rewrite (Hraise _ eq_refl) in He. injection He as <-.
      now apply (extract_entities_raises cfg textblob nlp_processor text).
    - rewrite (Hret _ eq_refl) in He. discriminate. }
  destruct (str_eqb op (s "language")); [|discriminate].
  match goal with
  | |- context [bind (tell _) (fun _ => bind (lift ?X) (fun v => ret (@?k v)))] =>
      destruct (dispatch_step op X k) as (Hd & Hraise & Hret)
  end.
  split; [exact Hd|]. intros e He.
  destruct (detect_language_returns textblob text) as [v Hv].
  rewrite (Hret _ Hv) in He. discriminate.
Qed.

Lemma process_operation_unknown (result : NLPResult) (op : str) :
  supported op = false ->
  step result op = (inl (unknown_operation op), []).
Proof.
  unfold supported, step, process_operation. intros Hop.
  destruct (str_eqb op (s "summarize")); [discriminate|].
  destruct (str_eqb op (s "sentiment")); [discriminate|].
  destruct (str_eqb op (s "entities")); [discriminate|].
  destruct (str_eqb op (s "language")); [discriminate|].
  reflexivity.
Qed.

(** The loop over a list with an unknown name stops at that name, or
    earlier at a capability that raised. *)
Lemma for_fold_unknown (before : list str) (unknown : str) (after : list str) :
  Forall (fun op => supported op = true) before ->
  supported unknown = false ->
  forall result,
    let m := for_fold (before ++ unknown :: after) result step in
    (fst m = inl (unknown_operation unknown) /\ dispatched (snd m) = before)
    \/ (exists message k,
          fst m = inl (Exception message)
          /\ dispatched (snd m) = firstn k before).
Proof.
  intros Hbefore Hunknown.
  induction Hbefore as [|op rest Hop _ IH]; intros result; cbn [app for_fold].
  - rewrite (process_operation_unknown result unknown Hunknown). left. now split.
  - destruct (process_operation_supported result op Hop) as [Hd Hraise].
    destruct (step result op) as [[e | result'] log] eqn:Hstep;
      cbn [fst snd] in Hd, Hraise.
    + right. destruct (Hraise e eq_refl) as [message ->].
      exists message, 1%nat. cbn [bind fst snd firstn]. now split.
    + specialize (IH result'). cbv zeta in IH. cbn [bind].
      destruct (for_fold (rest ++ unknown :: after) result' step) as [res log'].
      cbn [fst snd] in *. rewrite dispatched_app, Hd.
      destruct IH as [[-> ->] | (message & k & -> & ->)].
      * left. now split.
      * right. exists message, (S k). now split.
Qed.

End RouteProperties.

(** C3, as the code has it.  A request whose list holds an unknown name
    is never answered with success.  With a blank text it is rejected at
    once and nothing runs.  Otherwise the capabilities listed before the
    first unknown name run, in order, and nothing listed at or after it
    runs; the request is then rejected with the validation error of the
    unknown name, unless one of those capabilities raised, which gives a
    processing failure instead. *)
Theorem process_text_unknown_operation
  (cfg : NLPConfig) (nltk : Nltk) (textblob : TextBlob)
  (nlp_processor : NLPProcessor)
  (text : str) (before : list str) (unknown : str) (after : list str) :
  Forall (fun op => supported op = true) before ->
  supported unknown = false ->
  let m := process_text cfg nltk textblob nlp_processor
             {| task_text := text; operations := before ++ unknown :: after |} in
  (blank text = true /\ m = (inl text_required, []))
  \/ (blank text = false
      /\ fst m = inl (unknown_operation unknown)
      /\ dispatched (snd m) = before)
  \/ (blank text = false
      /\ exists message k,
           fst m = inr (processing_failed message)
           /\ dispatched (snd m) = firstn k before).
Proof.
  intros Hbefore Hunknown. unfold process_text. cbn [task_text operations].
  destruct (blank text) eqn:Hblank; [left; now split | right].
  assert (Hops : forall (A : Type) (x y : A),
             match before ++ unknown :: after with [] => x | _ :: _ => y end = y)
    by (intros; now destruct before).
  rewrite Hops.
  pose proof (for_fold_unknown cfg nltk textblob nlp_processor text
                before unknown after Hbefore Hunknown NLPResult_empty) as Hloop.
  cbv zeta in Hloop.
  destruct (for_fold (before ++ unknown :: after) NLPResult_empty
              (process_operation cfg nltk textblob nlp_processor text))
    as [res log].
  cbn [fst snd] in Hloop.
  destruct Hloop as [[-> Hd] | (message & k & -> & Hd)]; cbn.
  - left. rewrite !app_nil_r. now repeat split.
  - right. rewrite !app_nil_r. split; [reflexivity|]. now exists message, k.
Qed.

(** C3, run on a short text with a known name before the unknown one. *)
Lemma process_text_unknown_operation_witness :
  let m := process_text config StandIn.nltk (StandIn.textblob f0_0)
             StandIn.no_models
             {| task_text := s "Short.";
                operations := [s "summarize"] ++ s "translate" :: [] |} in
  (blank (s "Short.") = true /\ m = (inl text_required, []))
  \/ (blank (s "Short.") = false
      /\ fst m = inl (unknown_operation (s "translate"))
      /\ dispatched (snd m) = [s "summarize"])
  \/ (blank (s "Short.") = false
      /\ exists message k,
           fst m = inr (processing_failed message)
           /\ dispatched (snd m) = firstn k [s "summarize"]).
Proof.
  apply (process_text_unknown_operation config StandIn.nltk
           (StandIn.textblob f0_0) StandIn.no_models
           (s "Short.") [s "summarize"] (s "translate") []).
  - repeat constructor.
  - reflexivity.
Defined.

(** C3 fails as stated: with the unknown name second in the list, the
    request is rejected, but [summarize_text] has run by then. *)
Lemma process_text_runs_before_rejecting :
  let task := {| task_text := s "Short.";
                 operations := [s "summarize"; s "translate"] |} in
  let m := process_text config StandIn.nltk (StandIn.textblob f0_0)
             StandIn.no_models task in
  In (s "translate") task.(operations)
  /\ supported (s "translate") = false
  /\ fst m = inl (unknown_operation (s "translate"))
  /\ dispatched (snd m) = [s "summarize"].
Proof. repeat split. right. now left. Qed.

(** * Further properties of the code *)

(** ** The normalizer *)

Lemma visible_lstrip x : visible (lstrip x) = visible x.
Proof.
  induction x as [|c rest IH]; simpl; [reflexivity|].
  destruct (isspace c) eqn:Hc; simpl; [exact IH | now rewrite Hc].
Qed.

Lemma visible_strip x : visible (strip x) = visible x.
Proof.
  unfold strip, rstrip, visible.
  rewrite filter_rev. fold (visible (lstrip (rev (lstrip x)))).
  rewrite visible_lstrip. unfold visible. rewrite filter_rev, rev_involutive.
  apply visible_lstrip.
Qed.

Lemma visible_sub_ws b x : visible (sub_ws b x) = visible x.
Proof.
  revert b. induction x as [|c rest IH]; intros b; simpl; [reflexivity|].
  destruct (isspace c) eqn:Hc; simpl.
  - destruct b; simpl; apply IH.
  - rewrite Hc. simpl. f_equal. apply IH.
Qed.

(** X1. The normalizer only touches whitespace: the visible characters
    of its result are those of the text, in the same order. *)
Theorem clean_text_keeps_visible (text : str) :
  visible (clean_text text) = visible text.
Proof.
  unfold clean_text. now rewrite visible_sub_ws, visible_strip.
Qed.

Lemma has_solid_visible x : has_solid x = false <-> visible x = [].
Proof.
  induction x as [|c rest IH]; simpl; [tauto|].
  destruct (isspace c); simpl; [exact IH|]. split; discriminate.
Qed.

Lemma lstrip_blank x : has_solid x = false -> lstrip x = [].
Proof.
  induction x as [|c rest IH]; simpl; [reflexivity|].
  destruct (isspace c); simpl; [exact IH | discriminate].
Qed.

(** X2. The normalizer returns the empty string exactly on the texts
    that have no visible character (empty or all whitespace). *)
Theorem clean_text_empty_iff_blank (text : str) :
  clean_text text = [] <-> has_solid text = false.
Proof.
  split; intros H.
  - apply has_solid_visible. rewrite <- (visible_strip text), <- (visible_sub_ws false (strip text)).
    fold (clean_text text). now rewrite H.
  - unfold clean_text, strip. now rewrite (lstrip_blank _ H).
Qed.

(** X3. The texts the normalizer leaves unchanged are exactly those whose
    whitespace is single spaces between visible characters. *)
Theorem clean_text_fixed_iff (text : str) :
  clean_text text = text
  <-> (only_spaces text /\ no_ws_run text = true
       /\ starts_ws text = false /\ ends_ws text = false).
Proof.
  split.
  - intros H. rewrite <- H. repeat split.
    + apply sub_ws_only_spaces.
    + apply sub_ws_no_run.
    + apply sub_ws_starts, strip_starts.
    + apply sub_ws_ends, strip_ends.
  - intros (Hsp & Hrun & Hs & He). unfold clean_text.
    rewrite (strip_fixed _ Hs He).
    apply sub_ws_fixed; [exact Hsp | exact Hrun | discriminate].
Qed.

Lemma lstrip_length x : (length (lstrip x) <= length x)%nat.
Proof.
  induction x as [|c rest IH]; simpl; [lia|].
  destruct (isspace c); simpl; lia.
Qed.

Lemma strip_length x : (length (strip x) <= length x)%nat.
Proof.
  unfold strip, rstrip. rewrite length_rev.
  pose proof (lstrip_length (rev (lstrip x))) as H.
  rewrite length_rev in H. pose proof (lstrip_length x). lia.
Qed.

Lemma sub_ws_length b x : (length (sub_ws b x) <= length x)%nat.
Proof.
  revert b. induction x as [|c rest IH]; intros b; simpl; [lia|].
  destruct (isspace c); [destruct b|]; simpl;
    try (pose proof (IH true)); try (pose proof (IH false)); lia.
Qed.

(** X4. The normalizer never makes a text longer. *)
Theorem clean_text_length (text : str) : len (clean_text text) <= len text.
Proof.
  unfold clean_text, len.
  pose proof (sub_ws_length false (strip text)).
  pose proof (strip_length text). lia.
Qed.

(** ** The chunker *)

Lemma join_snoc sep xs y :
  xs <> [] -> join sep (xs ++ [y]) = join sep xs ++ sep ++ y.
Proof.
  induction xs as [|x rest IH]; intros Hne; [congruence|].
  destruct rest as [|x' rest']; [reflexivity|].
  change (join sep ((x :: x' :: rest') ++ [y]))
    with (x ++ sep ++ join sep ((x' :: rest') ++ [y])).
  rewrite IH by discriminate.
  change (join sep (x :: x' :: rest')) with (x ++ sep ++ join sep (x' :: rest')).
  now rewrite <- !app_assoc.
Qed.

Lemma join_snoc_glue sep xs c y :
  join sep (xs ++ [c ++ sep ++ y]) = join sep (xs ++ [c]) ++ sep ++ y.
Proof.
  destruct xs as [|x rest]; [reflexivity|].
  rewrite !join_snoc by discriminate. now rewrite <- !app_assoc.
Qed.

Lemma ends_ws_app x y : y <> [] -> ends_ws (x ++ y) = ends_ws y.
Proof.
  intros Hne. unfold ends_ws. rewrite rev_app_distr.
  destruct (rev y) eqn:E; [|reflexivity].
  apply (f_equal (@rev ascii)) in E. rewrite rev_involutive in E. contradiction.
Qed.

Lemma lstrip_app_solid x y : has_solid x = true -> lstrip (x ++ y) = lstrip x ++ y.
Proof.
  induction x as [|c rest IH]; simpl; [discriminate|].
  destruct (isspace c); simpl; [exact IH | reflexivity].
Qed.

Lemma lstrip_ends x : ends_ws x = false -> ends_ws (lstrip x) = false.
Proof.
  intros H. destruct (ends_ws_false_inv _ H) as [-> | (y & c & -> & Hc)];
    [reflexivity|].
  rewrite lstrip_app by (simpl; exact Hc). now rewrite ends_ws_snoc.
Qed.

Lemma strip_buffer_sentence buffer sentence :
  has_solid buffer = true -> ends_ws buffer = false ->
  trimmed_nonempty sentence ->
  strip (buffer ++ s " " ++ sentence) = strip buffer ++ s " " ++ sentence.
Proof.
  intros Hsolid Hend (Hne & Hs & He). unfold strip.
  rewrite lstrip_app_solid by exact Hsolid.
  rewrite rstrip_fixed.
  - rewrite (rstrip_fixed (lstrip buffer)); [reflexivity|].
    now apply lstrip_ends.
  - rewrite ends_ws_app by discriminate.
    change (s " " ++ sentence) with ([space] ++ sentence).
    now rewrite ends_ws_app.
Qed.

Lemma trimmed_nonempty_solid x : trimmed_nonempty x -> has_solid x = true.
Proof.
  intros (Hne & Hs & _). destruct x as [|c rest]; [congruence|].
  simpl in *. now rewrite Hs.
Qed.

Lemma trimmed_nonempty_strip x : trimmed_nonempty x -> strip x = x.
Proof. intros (_ & Hs & He). now apply strip_fixed. Qed.

Lemma strip_space_sentence sentence :
  trimmed_nonempty sentence -> strip (s " " ++ sentence) = sentence.
Proof.
  intros H. unfold strip. change (lstrip (s " " ++ sentence)) with (lstrip sentence).
  destruct H as (_ & Hs & He).
  rewrite (lstrip_fixed _ Hs). now apply rstrip_fixed.
Qed.

Lemma join_snoc_same sep xs ys z :
  join sep xs = join sep ys -> (xs = [] <-> ys = []) ->
  join sep (xs ++ [z]) = join sep (ys ++ [z]).
Proof.
  intros Hjoin Hnil. destruct xs as [|x xs'].
  - assert (ys = []) as -> by now apply Hnil. reflexivity.
  - assert (Hys : ys <> []) by (intros E; apply Hnil in E; discriminate).
    rewrite !join_snoc by (exact Hys || discriminate). now rewrite Hjoin.
Qed.

(** One turn of the loop keeps the text: the chunks, once the buffer is
    flushed, read like the sentences consumed so far. *)
Lemma chunk_step_rebuilds max_size st consumed_so_far sentence :
  trimmed_nonempty sentence ->
  join (s " ") (flushed st) = join (s " ") consumed_so_far ->
  (flushed st = [] <-> consumed_so_far = []) ->
  (snd st = [] \/ (has_solid (snd st) = true /\ ends_ws (snd st) = false)) ->
  let st' := chunk_step max_size st sentence in
  join (s " ") (flushed st') = join (s " ") (consumed_so_far ++ [sentence])
  /\ flushed st' <> []
  /\ has_solid (snd st') = true /\ ends_ws (snd st') = false.
Proof.
  intros Hsent Hjoin Hnil Hbuf.
  pose proof (trimmed_nonempty_solid _ Hsent) as Hsolid.
  pose proof Hsent as (Hne & Hs & He).
  destruct st as [chunks buffer]. unfold chunk_step. cbn [snd] in Hbuf.
  assert (Hflush : flushed (flushed (chunks, buffer), sentence)
                   = flushed (chunks, buffer) ++ [sentence]).
  { unfold flushed at 1. cbn [fst snd].
    rewrite (trimmed_nonempty_strip _ Hsent). now destruct sentence. }
  destruct (len buffer + len sentence >? max_size).
  - change (if truthy buffer then chunks ++ [strip buffer] else chunks)
      with (flushed (chunks, buffer)).
    cbv zeta. cbn [snd]. rewrite Hflush.
    repeat split; try assumption.
    + now apply join_snoc_same.
    + intros E. now apply app_eq_nil in E as [_ E].
  - cbv zeta. cbn [snd].
    assert (Hflushed : flushed (chunks, buffer ++ s " " ++ sentence)
                       = chunks ++ [strip (buffer ++ s " " ++ sentence)]).
    { unfold flushed. cbn [fst snd]. now destruct buffer. }
    rewrite Hflushed.
    assert (Hend : ends_ws (buffer ++ s " " ++ sentence) = false).
    { rewrite ends_ws_app by discriminate.
      change (s " " ++ sentence) with ([space] ++ sentence).
      now rewrite ends_ws_app. }
    assert (Hsol : has_solid (buffer ++ s " " ++ sentence) = true).
    { rewrite !has_solid_app, Hsolid. now rewrite !orb_true_r. }
    repeat split; try assumption.
    + destruct Hbuf as [-> | [Hbs Hbe]].
      * cbn [app]. rewrite (strip_space_sentence _ Hsent).
        apply join_snoc_same; assumption.
      * rewrite (strip_buffer_sentence _ _ Hbs Hbe Hsent), join_snoc_glue.
        assert (Hfl : flushed (chunks, buffer) = chunks ++ [strip buffer]).
        { unfold flushed. cbn [fst snd]. destruct buffer; [discriminate|reflexivity]. }
        rewrite Hfl in Hjoin, Hnil.
        transitivity (join (s " ") consumed_so_far ++ s " " ++ sentence);
          [f_equal; exact Hjoin|].
        symmetry. apply join_snoc.
        intros E. apply Hnil in E. now apply app_eq_nil in E as [_ E].
    + intros E. now apply app_eq_nil in E as [_ E].
Qed.

Lemma chunk_fold_rebuilds max_size sentences :
  Forall trimmed_nonempty sentences ->
  forall st consumed_so_far,
    join (s " ") (flushed st) = join (s " ") consumed_so_far ->
    (flushed st = [] <-> consumed_so_far = []) ->
    (snd st = [] \/ (has_solid (snd st) = true /\ ends_ws (snd st) = false)) ->
    join (s " ") (flushed (fold_left (chunk_step max_size) sentences st))
    = join (s " ") (consumed_so_far ++ sentences).
Proof.
  induction 1 as [|sentence rest Hsent _ IH]; intros st done Hjoin Hnil Hbuf.
  - cbn. now rewrite app_nil_r.
  - cbn [fold_left].
    destruct (chunk_step_rebuilds max_size st done sentence Hsent Hjoin Hnil Hbuf)
      as (Hjoin' & Hne' & Hsolid' & Hend').
    replace (done ++ sentence :: rest) with ((done ++ [sentence]) ++ rest)
      by now rewrite <- app_assoc.
    apply IH; [exact Hjoin' | | right; now split].
    split; [contradiction|]. intros E. now apply app_eq_nil in E as [_ E].
Qed.

Lemma chunk_sentences_flushed max_size sentences :
  chunk_sentences max_size sentences
  = flushed (fold_left (chunk_step max_size) sentences ([], [])).
Proof.
  unfold chunk_sentences, flushed.
  now destruct (fold_left (chunk_step max_size) sentences ([], [])).
Qed.

(** X5. The chunker loses nothing and reorders nothing: when the
    sentences of the tokenizer are non-empty and trimmed, the chunks
    joined by single spaces read exactly like the sentences joined by
    single spaces, whatever the maximum chunk size. *)
Theorem chunk_text_rebuilds_sentences
  (cfg : NLPConfig) (nltk : Nltk) (text : str) (max_size : option Z) :
  Forall trimmed_nonempty (sent_tokenize nltk text) ->
  join (s " ") (chunk_text cfg nltk text max_size)
  = join (s " ") (sent_tokenize nltk text).
Proof.
  intros Hall. unfold chunk_text. rewrite chunk_sentences_flushed.
  apply (chunk_fold_rebuilds _ _ Hall ([], []) []).
  - reflexivity.
  - split; reflexivity.
  - now left.
Qed.

(** X5, run on three sentences cut at 30 characters. *)
Lemma chunk_text_rebuilds_sentences_witness :
  join (s " ")
    (chunk_text config StandIn.nltk
       (s "The cat sat. The dog ran. A bird flew away.") (Some 30))
  = join (s " ")
      (sent_tokenize StandIn.nltk (s "The cat sat. The dog ran. A bird flew away.")).
Proof.
  apply chunk_text_rebuilds_sentences.
  vm_compute. repeat constructor; discriminate.
Defined.

(** The size of a chunk: a whole sentence, or at most the maximum plus
    one, the space that joins two sentences not being counted by the
    test of the loop. *)
Lemma chunk_step_sizes max_size (all : list str) st sentence :
  In sentence all ->
  Forall (fun chunk => (exists whole, In whole all /\ chunk = strip whole)
                       \/ len chunk <= max_size + 1) (fst st) ->
  (snd st = [] \/ In (snd st) all \/ len (snd st) <= max_size + 1) ->
  let st' := chunk_step max_size st sentence in
  Forall (fun chunk => (exists whole, In whole all /\ chunk = strip whole)
                       \/ len chunk <= max_size + 1) (fst st')
  /\ (snd st' = [] \/ In (snd st') all \/ len (snd st') <= max_size + 1).
Proof.
  intros Hin Hchunks Hbuf. destruct st as [chunks buffer].
  cbn [fst snd] in *. unfold chunk_step.
  destruct (len buffer + len sentence >? max_size) eqn:E; cbn [fst snd].
  - split; [|right; now left].
    destruct buffer as [|c rest]; [exact Hchunks|]. cbn [truthy].
    apply Forall_app. split; [exact Hchunks|]. constructor; [|constructor].
    destruct Hbuf as [Hb | [Hb | Hb]]; [discriminate | left; eauto | right].
    pose proof (strip_length (c :: rest)). unfold len in *. lia.
  - split; [exact Hchunks|]. right. right.
    rewrite Z.gtb_ltb in E. apply Z.ltb_ge in E.
    unfold len in *. rewrite !length_app. cbn [length s list_ascii_of_string]. lia.
Qed.

Lemma chunk_fold_sizes max_size (all sentences : list str) :
  incl sentences all ->
  forall st,
    Forall (fun chunk => (exists whole, In whole all /\ chunk = strip whole)
                         \/ len chunk <= max_size + 1) (fst st) ->
    (snd st = [] \/ In (snd st) all \/ len (snd st) <= max_size + 1) ->
    let st' := fold_left (chunk_step max_size) sentences st in
    Forall (fun chunk => (exists whole, In whole all /\ chunk = strip whole)
                         \/ len chunk <= max_size + 1) (fst st')
    /\ (snd st' = [] \/ In (snd st') all \/ len (snd st') <= max_size + 1).
Proof.
  induction sentences as [|sentence rest IH]; intros Hincl st Hchunks Hbuf.
  - now split.
  - cbn [fold_left].
    destruct (chunk_step_sizes max_size all st sentence
                (Hincl _ (in_eq _ _)) Hchunks Hbuf) as [Hchunks' Hbuf'].
    apply IH; [|exact Hchunks' | exact Hbuf'].
    intros x Hx. apply Hincl. now right.
Qed.

(** X6. The size bound of the chunker is soft in two ways: a chunk is a
    whole sentence of the text, however long, or it is at most one
    character longer than the maximum chunk size. *)
Theorem chunk_text_chunk_sizes
  (cfg : NLPConfig) (nltk : Nltk) (text : str) (max_size : option Z) :
  let limit := or_default max_size cfg.(max_chunk_size) in
  Forall (fun chunk =>
            (exists sentence,
                In sentence (sent_tokenize nltk text) /\ chunk = strip sentence)
            \/ len chunk <= limit + 1)
    (chunk_text cfg nltk text max_size).
Proof.
  intros limit. unfold chunk_text. fold limit.
  set (sentences := sent_tokenize nltk text).
  rewrite chunk_sentences_flushed.
  destruct (chunk_fold_sizes limit sentences sentences (incl_refl _) ([], []))
    as [Hchunks Hbuf]; [constructor | now left |].
  cbv zeta in Hchunks, Hbuf.
  destruct (fold_left (chunk_step limit) sentences ([], [])) as [chunks buffer].
  unfold flushed. cbn [fst snd] in *.
  destruct buffer as [|c rest]; [exact Hchunks|]. cbn [truthy].
  apply Forall_app. split; [exact Hchunks|]. constructor; [|constructor].
  destruct Hbuf as [Hb | [Hb | Hb]]; [discriminate | left; eauto | right].
  pose proof (strip_length (c :: rest)). unfold len in *. lia.
Qed.

(** The bound of X6 is reached: with a maximum of 10, two sentences of 5
    characters that follow a longer one share a chunk of 11. *)
Lemma chunk_text_chunk_of_max_plus_one :
  map len (chunk_text config StandIn.nltk (s "Twelve chars. Abcd. Efgh.") (Some 10))
  = [13; 11].
Proof. reflexivity. Qed.

Lemma flushed_step_length max_size st sentence :
  (length (flushed (chunk_step max_size st sentence))
   <= S (length (flushed st)))%nat.
Proof.
  destruct st as [chunks buffer]. unfold chunk_step, flushed.
  destruct (len buffer + len sentence >? max_size); cbn [fst snd].
  - destruct buffer, sentence; cbn [truthy]; rewrite ?length_app; simpl; lia.
  - destruct buffer; cbn; rewrite ?length_app; simpl; lia.
Qed.

Lemma flushed_fold_length max_size sentences st :
  (length (flushed (fold_left (chunk_step max_size) sentences st))
   <= length (flushed st) + length sentences)%nat.
Proof.
  revert st. induction sentences as [|sentence rest IH]; intros st; simpl.
  - lia.
  - pose proof (IH (chunk_step max_size st sentence)).
    pose proof (flushed_step_length max_size st sentence). lia.
Qed.

(** X7. The chunker makes at most one chunk per sentence; a text in which
    the tokenizer finds no sentence gives no chunk. *)
Theorem chunk_text_at_most_one_chunk_per_sentence
  (cfg : NLPConfig) (nltk : Nltk) (text : str) (max_size : option Z) :
  (length (chunk_text cfg nltk text max_size)
   <= length (sent_tokenize nltk text))%nat.
Proof.
  unfold chunk_text. rewrite chunk_sentences_flushed.
  apply (flushed_fold_length _ _ ([], [])).
Qed.

(** ** The keyword ranker *)

Lemma dict_get_set_same {V} (d : Dict.t V) k v : Dict.get (Dict.set d k v) k = Some v.
Proof.
  induction d as [|[k' v'] rest IH]; cbn.
  - now rewrite str_eqb_refl.
  - destruct (str_eqb k' k) eqn:E; cbn; rewrite E; [reflexivity | exact IH].
Qed.

Lemma dict_get_set_other {V} (d : Dict.t V) k v k' :
  k <> k' -> Dict.get (Dict.set d k v) k' = Dict.get d k'.
Proof.
  intros Hne. induction d as [|[k0 v0] rest IH]; cbn.
  - now apply str_eqb_neq in Hne as ->.
  - destruct (str_eqb k0 k) eqn:E; cbn.
    + apply str_eqb_eq in E. subst k0.
      now apply str_eqb_neq in Hne as ->.
    + now rewrite IH.
Qed.

Lemma occurrences_cons w x rest :
  occurrences w (x :: rest)
  = (if str_eqb x w then 1 else 0) + occurrences w rest.
Proof.
  unfold occurrences. cbn [count_occ].
  destruct (list_eq_dec ascii_dec x w) as [-> | Hne].
  - rewrite str_eqb_refl. lia.
  - apply str_eqb_neq in Hne as ->. lia.
Qed.

Lemma occurrences_nonneg w ws : 0 <= occurrences w ws.
Proof. unfold occurrences. lia. Qed.

Lemma counter_add_get (c : Counter) x w :
  Dict.get (counter_add c x) w
  = if str_eqb x w
    then Some (match Dict.get c w with Some n => n + 1 | None => 1 end)
    else Dict.get c w.
Proof.
  unfold counter_add. destruct (str_eqb x w) eqn:E.
  - apply str_eqb_eq in E. subst x.
    destruct (Dict.get c w); apply dict_get_set_same.
  - apply str_eqb_neq in E.
    destruct (Dict.get c x); now apply dict_get_set_other.
Qed.

(** Counting the words of a list one by one adds, for each word, the
    number of times it occurs. *)
Lemma counter_fold_get (words : list str) (c : Counter) (w : str) :
  Dict.get (fold_left counter_add words c) w
  = match Dict.get c w with
    | Some n => Some (n + occurrences w words)
    | None => if occurrences w words =? 0 then None
              else Some (occurrences w words)
    end.
Proof.
  revert c. induction words as [|x rest IH]; intros c; cbn [fold_left].
  - unfold occurrences. cbn. destruct (Dict.get c w); [f_equal; lia | reflexivity].
  - rewrite IH, counter_add_get, occurrences_cons.
    pose proof (occurrences_nonneg w rest).
    destruct (str_eqb x w); destruct (Dict.get c w) as [n|].
    + f_equal; lia.
    + replace (1 + occurrences w rest =? 0) with false
        by (symmetry; apply Z.eqb_neq; lia).
      f_equal; lia.
    + reflexivity.
    + reflexivity.
Qed.

(** X8. Looking a word up in the table of [extract_keywords] gives the
    number of times it occurs among the lowercased tokens that are
    alphanumeric and longer than [min_length]; a word that does not occur
    there, and so every token that fails the test, is not a key. *)
Theorem extract_keywords_counts
  (nltk : Nltk) (text : str) (min_length : Z) (w : str) :
  let kept := filter (is_keyword min_length) (word_tokenize nltk (lower text)) in
  Dict.get (extract_keywords nltk text min_length) w
  = (if occurrences w kept =? 0 then None else Some (occurrences w kept))
  /\ (is_keyword min_length w = false ->
      Dict.get (extract_keywords nltk text min_length) w = None).
Proof.
  intros kept.
  assert (Hget : Dict.get (extract_keywords nltk text min_length) w
                 = if occurrences w kept =? 0 then None
                   else Some (occurrences w kept))
    by apply (counter_fold_get kept []).
  split; [exact Hget|].
  intros Hw. rewrite Hget.
  replace (occurrences w kept) with 0; [reflexivity|].
  unfold occurrences. symmetry.
  replace (count_occ (list_eq_dec ascii_dec) kept w) with 0%nat; [reflexivity|].
  symmetry. apply count_occ_not_In. unfold kept. rewrite filter_In.
  intros [_ Hk]. congruence.
Qed.

(** ** The extractive summarizer *)

Lemma prefix_length_le x n : 0 <= n -> len (prefix x n) <= n.
Proof.
  intros Hn. unfold prefix, len.
  replace (0 <=? n) with true by (symmetry; now apply Z.leb_le).
  pose proof (firstn_le_length (Z.to_nat n) x). lia.
Qed.

(** X9. On a text of more than two sentences, with a maximum length that
    is not negative, the extractive summary is never longer than the
    maximum plus the three characters of the ellipsis. *)
Theorem extractive_summary_length
  (nltk : Nltk) (text : str) (max_length : Z) :
  (2 < length (sent_tokenize nltk text))%nat ->
  0 <= max_length ->
  len (_extractive_summary nltk text max_length) <= max_length + 3.
Proof.
  intros Hmany Hmax. unfold _extractive_summary.
  replace (Z.of_nat (length (sent_tokenize nltk text)) <=? 2) with false
    by (symmetry; apply Z.leb_gt; lia).
  cbv zeta.
  destruct (len (join (s " ") (summary_of_sentences nltk text
                                 (sent_tokenize nltk text))) >? max_length) eqn:E.
  - pose proof (prefix_length_le
                  (join (s " ") (summary_of_sentences nltk text
                                   (sent_tokenize nltk text))) max_length Hmax).
    unfold len in *. rewrite length_app.
    change (length (s "...")) with 3%nat. lia.
  - rewrite Z.gtb_ltb in E. apply Z.ltb_ge in E. lia.
Qed.

(** X9, run on six sentences with a maximum of 20 characters. *)
Lemma extractive_summary_length_witness :
  len (_extractive_summary StandIn.nltk
         (s "Cats like fish daily. Dogs like bones. Cats chase mice. Birds sing songs. Fish swim. Cats sleep.")
         20)
  <= 20 + 3.
Proof.
  apply extractive_summary_length.
  - vm_compute. lia.
  - lia.
Defined.

Lemma dict_set_fresh {V} (d : Dict.t V) k v :
  ~ In k (Dict.keys d) -> Dict.set d k v = d ++ [(k, v)].
Proof.
  induction d as [|[k' v'] rest IH]; intros Hfresh; [reflexivity|].
  cbn in Hfresh |- *.
  destruct (str_eqb k' k) eqn:E.
  - apply str_eqb_eq in E. tauto.
  - f_equal. apply IH. tauto.
Qed.

(** Scoring pairwise distinct sentences pairs each with its score. *)
Lemma fold_set_map {V} (f : str -> V) (xs : list str) (d : Dict.t V) :
  NoDup (Dict.keys d ++ xs) ->
  fold_left (fun d x => Dict.set d x (f x)) xs d
  = d ++ map (fun x => (x, f x)) xs.
Proof.
  revert d. induction xs as [|x rest IH]; intros d Hnd; cbn [fold_left map].
  - now rewrite app_nil_r.
  - assert (Hfresh : ~ In x (Dict.keys d)).
    { apply NoDup_remove_2 in Hnd. intros Hin. apply Hnd, in_or_app. now left. }
    rewrite (dict_set_fresh d x (f x) Hfresh), IH.
    + now rewrite <- app_assoc.
    + unfold Dict.keys. rewrite map_app. cbn. now rewrite <- app_assoc.
Qed.

Lemma insert_desc_sorted x items :
  StronglySorted (fun a b : str * Z => snd b <= snd a) items ->
  StronglySorted (fun a b : str * Z => snd b <= snd a) (insert_desc x items).
Proof.
  induction 1 as [|y rest Hsorted IH Hy]; cbn.
  - repeat constructor.
  - destruct (snd y <=? snd x) eqn:E.
    + apply Z.leb_le in E. constructor; [now constructor|].
      constructor; [exact E|].
      eapply Forall_impl; [|exact Hy]. cbn. intros z Hz. lia.
    + apply Z.leb_gt in E. constructor; [exact IH|].
      apply (Permutation_Forall (Permutation_sym (insert_desc_perm x rest))).
      constructor; [lia | exact Hy].
Qed.

Lemma sorted_desc_sorted items :
  StronglySorted (fun a b : str * Z => snd b <= snd a) (sorted_desc items).
Proof.
  induction items as [|x rest IH]; cbn; [constructor|].
  now apply insert_desc_sorted.
Qed.

Lemma sorted_split {A} (R : A -> A -> Prop) (front back : list A) :
  StronglySorted R (front ++ back) ->
  forall a b, In a front -> In b back -> R a b.
Proof.
  induction front as [|x rest IH]; intros Hs a b Ha Hb; [contradiction|].
  cbn in Hs. apply StronglySorted_inv in Hs as [Hrest Hx].
  destruct Ha as [<- | Ha].
  - rewrite Forall_forall in Hx. apply Hx, in_or_app. now right.
  - now apply IH.
Qed.

(** X10. When the sentences of the text are pairwise distinct, the
    summary keeps the best scored ones: no sentence left out scores
    higher than a sentence kept. *)
Theorem summary_of_sentences_keeps_top_scores
  (nltk : Nltk) (text : str) (sentences : list str) (kept left_out : str) :
  NoDup sentences ->
  In kept (summary_of_sentences nltk text sentences) ->
  In left_out sentences ->
  ~ In left_out (summary_of_sentences nltk text sentences) ->
  sentence_score nltk (extract_keywords nltk text 3) left_out
  <= sentence_score nltk (extract_keywords nltk text 3) kept.
Proof.
  intros Hnd. unfold summary_of_sentences.
  set (score := sentence_score nltk (extract_keywords nltk text 3)).
  rewrite (fold_set_map score sentences []) by exact Hnd. cbn [app].
  set (scores := map (fun x => (x, score x)) sentences).
  set (count := Z.min 3 (Z.of_nat (length sentences) / 2)).
  rewrite !filter_In, !mem_In.
  intros [_ Hkept] Hin Hout.
  assert (Hsplit : sorted_desc scores
                   = take (sorted_desc scores) count
                     ++ skipn (length (take (sorted_desc scores) count))
                          (sorted_desc scores)).
  { unfold take. destruct (0 <=? count);
      rewrite length_firstn;
      match goal with
      | |- _ = firstn ?n ?l ++ skipn (Nat.min ?n (length ?l)) ?l =>
          destruct (Nat.le_ge_cases n (length l));
          [rewrite Nat.min_l by assumption; now rewrite firstn_skipn
          |rewrite Nat.min_r by assumption;
           rewrite firstn_all2, skipn_all by assumption;
           now rewrite app_nil_r]
      end. }
  assert (Hpair : forall x v, In (x, v) (sorted_desc scores) -> v = score x).
  { intros x v Hxv. apply (Permutation_in _ (sorted_desc_perm scores)) in Hxv.
    unfold scores in Hxv. apply in_map_iff in Hxv as (y & [= <- <-] & _).
    reflexivity. }
  apply in_map_iff in Hkept as ([k v] & Hk & Hkin). cbn in Hk. subst k.
  assert (Hv : v = score kept).
  { apply Hpair. rewrite Hsplit. apply in_or_app. now left. }
  assert (Hleft : In (left_out, score left_out) (sorted_desc scores)).
  { apply (Permutation_in _ (Permutation_sym (sorted_desc_perm scores))).
    unfold scores. apply in_map_iff. now exists left_out. }
  rewrite Hsplit in Hleft. apply in_app_or in Hleft as [Hleft | Hleft].
  - exfalso. apply Hout. split; [exact Hin|].
    apply in_map_iff. now exists (left_out, score left_out).
  - pose proof (sorted_desc_sorted scores) as Hsorted. rewrite Hsplit in Hsorted.
    pose proof (sorted_split _ _ _ Hsorted _ _ Hkin Hleft) as Hle.
    cbn in Hle. now subst v.
Qed.

(** X10, run on six sentences: a sentence kept against one left out. *)
Lemma summary_of_sentences_keeps_top_scores_witness :
  sentence_score StandIn.nltk (extract_keywords StandIn.nltk StandIn.animals 3)
    (s "Fish swim.")
  <= sentence_score StandIn.nltk (extract_keywords StandIn.nltk StandIn.animals 3)
       (s "Cats like fish daily.").
Proof.
  apply (summary_of_sentences_keeps_top_scores StandIn.nltk StandIn.animals
           (sent_tokenize StandIn.nltk StandIn.animals)).
  - vm_compute. repeat constructor; cbn; intuition discriminate.
  - vm_compute. tauto.
  - vm_compute. tauto.
  - vm_compute. intuition discriminate.
Defined.

(** ** The facade: summaries *)


Lemma for_each_raises {E A B} (xs : list A) (body : A -> M E B) x e :
  In x xs -> fst (body x) = inl e -> exists e', fst (for_each xs body) = inl e'.
Proof.
  induction xs as [|x' rest IH]; intros Hin Hx; [contradiction|].
  cbn [for_each].
  destruct (body x') as [[e' | y] log] eqn:Hx'; [now eexists|].
  destruct Hin as [-> | Hin]; [rewrite Hx' in Hx; discriminate|].
  destruct (IH Hin Hx) as [e' He']. exists e'. cbn [bind].
  destruct (for_each rest body) as [[e'' | ys] log']; cbn in *; congruence.
Qed.

Lemma summarizer_turn_fst (model : str -> Z -> Z -> outcome str)
  (limit count : Z) (chunk : str) :
  count <> 0 ->
  fst (budget <- floordiv limit count ;;
       tell (Summarizer chunk (Z.min budget 130) 20) ;;
       of_outcome (model chunk (Z.min budget 130) 20))%monad
  = match model chunk (Z.min (limit / count) 130) 20 with
    | Ok out => inr out
    | Err message => inl (Exception message)
    end.
Proof.
  intros Hcount. unfold floordiv.
  replace (count =? 0) with false by (symmetry; now apply Z.eqb_neq).
  cbn. now destruct (model chunk (Z.min (limit / count) 130) 20).
Qed.

Lemma chunk_count_nonzero (chunks : list str) chunk :
  In chunk (take chunks 3) -> Z.of_nat (length chunks) <> 0.
Proof.
  intros Hin. apply take_3_incl in Hin. destruct chunks; [contradiction|].
  simpl. lia.
Qed.


(** X12. When the summarizer raises on one of the first three chunks,
    [summarize_text] answers what it answers with no summarizer loaded:
    nothing of the summaries already made is kept. *)
Theorem summarize_text_model_failure
  (cfg : NLPConfig) (nltk : Nltk) (self other : NLPProcessor)
  (model : str -> Z -> Z -> outcome str)
  (text : str) (max_length : option Z) (chunk message : str) :
  let limit := or_default max_length cfg.(summary_max_length) in
  let chunks := chunk_text cfg nltk (clean_text text) None in
  self.(summarizer) = Some model ->
  other.(summarizer) = None ->
  In chunk (take chunks 3) ->
  model chunk (Z.min (limit / Z.of_nat (length chunks)) 130) 20 = Err message ->
  fst (summarize_text cfg nltk self text max_length)
  = fst (summarize_text cfg nltk other text max_length).
Proof.
  intros limit chunks Hself Hother Hin Hfail. unfold summarize_text.
  fold limit. fold chunks. rewrite Hself, Hother.
  destruct (negb (truthy text) || (len (strip text) <? 50)); [reflexivity|].
  destruct (len (clean_text text) >? 200); [|reflexivity].
  rewrite try_except_fst.
  match goal with
  | |- context [for_each ?xs ?body] =>
      destruct (for_each_raises xs body chunk (Exception message) Hin) as [e He]
  end.
  { rewrite summarizer_turn_fst by (eapply chunk_count_nonzero; eauto).
    now rewrite Hfail. }
  now rewrite (bind_fst_raise _ _ e He).
Qed.

(** X12, run on a paragraph with a summarizer that fails. *)
Lemma summarize_text_model_failure_witness :
  fst (summarize_text config StandIn.nltk StandIn.broken_models
         StandIn.paragraph None)
  = fst (summarize_text config StandIn.nltk StandIn.no_models
           StandIn.paragraph None).
Proof.
  apply (summarize_text_model_failure config StandIn.nltk
           StandIn.broken_models StandIn.no_models
           (fun _ _ _ => Err (s "out of memory"))
           StandIn.paragraph None (clean_text StandIn.paragraph)
           (s "out of memory")).
  - reflexivity.
  - reflexivity.
  - vm_compute. now left.
  - reflexivity.
Defined.

(** ** The facade: sentiment *)

(** X13. When the sentiment model raises, or answers no class at all,
    [analyze_sentiment] answers what it answers with no model loaded. *)
Theorem analyze_sentiment_model_failure
  (cfg : NLPConfig) (textblob : TextBlob) (self other : NLPProcessor)
  (model : str -> outcome (list (str * float))) (text : str) :
  self.(sentiment_analyzer) = Some model ->
  other.(sentiment_analyzer) = None ->
  (model (prefix text 512) = Ok [] \/ exists message, model (prefix text 512) = Err message) ->
  fst (analyze_sentiment cfg textblob self text)
  = fst (analyze_sentiment cfg textblob other text).
Proof.
  intros Hself Hother Hfail. unfold analyze_sentiment. rewrite Hself, Hother.
  destruct (negb (truthy text)); [reflexivity|].
  rewrite try_except_fst.
  destruct Hfail as [Hfail | [message Hfail]]; rewrite Hfail; reflexivity.
Qed.

(** X13, run with a sentiment model that fails. *)
Lemma analyze_sentiment_model_failure_witness :
  fst (analyze_sentiment config (StandIn.textblob (1 # 2)) StandIn.broken_models
         (s "a lovely day"))
  = fst (analyze_sentiment config (StandIn.textblob (1 # 2)) StandIn.no_models
           (s "a lovely day")).
Proof.
  apply (analyze_sentiment_model_failure config (StandIn.textblob (1 # 2))
           StandIn.broken_models StandIn.no_models
           (fun _ => Err (s "out of memory")) (s "a lovely day")).
  - reflexivity.
  - reflexivity.
  - right. now exists (s "out of memory").
Defined.

Lemma max_by_score_ge best xs :
  (snd best <= snd (max_by_score best xs))%Q
  /\ Forall (fun class => (snd class <= snd (max_by_score best xs))%Q) xs.
Proof.
  revert best. induction xs as [|x rest IH]; intros best; cbn [max_by_score].
  - split; [apply Qle_refl | constructor].
  - match goal with
    | |- context [Qlt_bool ?a ?b] => destruct (Qlt_bool a b) eqn:E
    end.
    + destruct (IH x) as [Hb Hrest].
      apply Qlt_bool_true, Qlt_le_weak in E.
      split; [eapply Qle_trans; eassumption|].
      constructor; assumption.
    + destruct (IH best) as [Hb Hrest].
      apply Qlt_bool_false in E.
      split; [assumption|].
      constructor; [eapply Qle_trans; eassumption | assumption].
Qed.

(** X14. When the sentiment model answers, the result is made of the
    class with the largest score, the first one among equals: its
    confidence is the score of a class of the answer and no class scores
    higher. *)
Theorem analyze_sentiment_picks_best
  (cfg : NLPConfig) (textblob : TextBlob) (self : NLPProcessor)
  (model : str -> outcome (list (str * float)))
  (text : str) (results : list (str * float)) :
  text <> [] ->
  self.(sentiment_analyzer) = Some model ->
  model (prefix text 512) = Ok results ->
  results <> [] ->
  exists best,
    In best results
    /\ fst (analyze_sentiment cfg textblob self text)
       = inr (model_sentiment cfg best)
    /\ confidence (model_sentiment cfg best) = snd best
    /\ Forall (fun class => (snd class <= snd best)%Q) results.
Proof.
  intros Htext Hself Hout Hne. unfold analyze_sentiment.
  destruct text as [|c rest]; [congruence|]. cbn [truthy negb].
  rewrite Hself, Hout.
  destruct results as [|first others]; [congruence|].
  exists (max_by_score first others).
  destruct (max_by_score_ge first others) as [Hfirst Hothers].
  repeat split.
  - destruct (max_by_score_in first others) as [-> | Hin]; [now left | now right].
  - now constructor.
Qed.

(** X14, run with a model of three classes. *)
Lemma analyze_sentiment_picks_best_witness :
  exists best,
    In best [(s "LABEL_0", 1 # 20); (s "LABEL_1", 1 # 20); (s "LABEL_2", 9 # 10)]
    /\ fst (analyze_sentiment config (StandIn.textblob f0_0) StandIn.all_models
              (s "a lovely day"))
       = inr (model_sentiment config best)
    /\ confidence (model_sentiment config best) = snd best
    /\ Forall (fun class => (snd class <= snd best)%Q)
         [(s "LABEL_0", 1 # 20); (s "LABEL_1", 1 # 20); (s "LABEL_2", 9 # 10)].
Proof.
  apply (analyze_sentiment_picks_best config (StandIn.textblob f0_0)
           StandIn.all_models StandIn.always_positive (s "a lovely day")).
  - discriminate.
  - reflexivity.
  - reflexivity.
  - discriminate.
Defined.

(** X15. Whatever path made it, the confidence of a result bounds its
    score: given model scores that are not negative, the absolute value
    of the score is at most the confidence. *)
Theorem analyze_sentiment_confidence_bounds_score
  (cfg : NLPConfig) (textblob : TextBlob) (self : NLPProcessor)
  (text : str) (r : SentimentResult) :
  fst (analyze_sentiment cfg textblob self text) = inr r ->
  (forall model results,
      self.(sentiment_analyzer) = Some model ->
      model (prefix text 512) = Ok results ->
      Forall (fun class => (0 <= snd class)%Q) results) ->
  (Qabs (score r) <= confidence r)%Q.
Proof.
  unfold analyze_sentiment. intros Hrun Hscores.
  destruct (negb (truthy text)).
  { injection Hrun as <-. cbn. discriminate. }
  assert (Hfb : fst (tell (TextBlobSentiment text) ;;
                     polarity <- of_outcome (textblob.(polarity) text) ;;
                     ret (polarity_sentiment polarity))%monad = inr r ->
                (Qabs (score r) <= confidence r)%Q).
  { destruct (polarity textblob text) as [p | message]; cbn; [|discriminate].
    intros [= <-]. cbn. apply Qle_refl. }
  destruct (sentiment_analyzer self) as [model|] eqn:Hmodel; [|now apply Hfb].
  rewrite try_except_fst in Hrun.
  destruct (model (prefix text 512)) as [results | message] eqn:Hout;
    [|now apply Hfb].
  destruct results as [|first others]; [now apply Hfb|].
  cbn in Hrun. injection Hrun as <-.
  assert (Hbest : (0 <= snd (max_by_score first others))%Q).
  { specialize (Hscores model _ eq_refl Hout). rewrite Forall_forall in Hscores.
    destruct (max_by_score_in first others) as [-> | Hin];
      apply Hscores; [now left | now right]. }
  unfold model_sentiment. cbn [score confidence].
  destruct (str_eqb _ (s "negative")).
  - rewrite Qabs_opp, Qabs_pos by exact Hbest. apply Qle_refl.
  - destruct (str_eqb _ (s "neutral")).
    + exact Hbest.
    + rewrite Qabs_pos by exact Hbest. apply Qle_refl.
Qed.

(** X15, run with a model of three classes. *)
Lemma analyze_sentiment_confidence_bounds_score_witness :
  exists r,
    fst (analyze_sentiment config (StandIn.textblob f0_0) StandIn.all_models
           (s "a lovely day")) = inr r
    /\ (Qabs (score r) <= confidence r)%Q.
Proof.
  eexists. split; [reflexivity|].
  apply (analyze_sentiment_confidence_bounds_score config
           (StandIn.textblob f0_0) StandIn.all_models (s "a lovely day")).
  - reflexivity.
  - intros model results Hmodel Hout.
    injection Hmodel as <-. injection Hout as <-.
    repeat constructor; discriminate.
Defined.

(** ** The facade: language and entities *)

(** X16. [detect_language] never raises: it hands the text to TextBlob
    once and answers the detected code with confidence 0.8, or, when the
    detection fails, exactly the code en with confidence 0.5. *)
Theorem detect_language_result (textblob : TextBlob) (text : str) :
  detect_language textblob text
  = (inr match textblob.(detect_language_of) text with
         | Ok detected =>
             {| language_code := detected; language_confidence := f0_8 |}
         | Err _ =>
             {| language_code := s "en"; language_confidence := f0_5 |}
         end,
     [TextBlobLanguage text]).
Proof.
  unfold detect_language.
  now destruct (detect_language_of textblob text).
Qed.

Lemma In_take {A} (xs : list A) (n : Z) x : In x (take xs n) -> In x xs.
Proof. unfold take. destruct (0 <=? n); apply In_firstn. Qed.

(** X17. What [extract_entities] returns is either one entity per span
    of the model, in the order of the spans, each with the text and label
    of its span and confidence 0.9; or noun phrases of TextBlob, each
    longer than two characters and made of letters and spaces only, with
    label NOUN_PHRASE and confidence 0.7. *)
Theorem extract_entities_result
  (cfg : NLPConfig) (textblob : TextBlob) (self : NLPProcessor)
  (text : str) (found : list EntityResult) :
  fst (extract_entities cfg textblob self text) = inr found ->
  (exists model spans,
      self.(nlp) = Some model
      /\ model (prefix text 1000) = Ok spans
      /\ found = map (fun span => {| entity_text := fst span;
                                     entity_label := snd span;
                                     entity_confidence := f0_9 |}) spans)
  \/ (exists phrases,
        textblob.(noun_phrases) text = Ok phrases
        /\ Forall (fun entity =>
                     In (entity_text entity) phrases
                     /\ len (entity_text entity) > 2
                     /\ isalpha (remove_spaces (entity_text entity)) = true
                     /\ entity_label entity = s "NOUN_PHRASE"
                     /\ entity_confidence entity = f0_7)
             found).
Proof.
  unfold extract_entities. intros Hrun.
  assert (Hfb : fst (tell (TextBlobNounPhrases text) ;;
                     phrases <- of_outcome (textblob.(noun_phrases) text) ;;
                     ret (take
                            (map (fun noun_phrase =>
                                    {| entity_text := noun_phrase;
                                       entity_label := s "NOUN_PHRASE";
                                       entity_confidence := f0_7 |})
                               (filter (fun noun_phrase =>
                                          (len noun_phrase >? 2)
                                          && isalpha (remove_spaces noun_phrase))
                                  phrases))
                            cfg.(max_entities)))%monad = inr found ->
                exists phrases,
                  textblob.(noun_phrases) text = Ok phrases
                  /\ Forall (fun entity =>
                               In (entity_text entity) phrases
                               /\ len (entity_text entity) > 2
                               /\ isalpha (remove_spaces (entity_text entity)) = true
                               /\ entity_label entity = s "NOUN_PHRASE"
                               /\ entity_confidence entity = f0_7)
                       found).
  { destruct (noun_phrases textblob text) as [phrases | message]; cbn;
      [|discriminate].
    intros [= <-]. exists phrases. split; [reflexivity|].
    apply Forall_forall. intros entity Hin. apply In_take in Hin.
    apply in_map_iff in Hin as (phrase & <- & Hin).
    apply filter_In in Hin as [Hin Hok].
    apply andb_true_iff in Hok as [Hlen Halpha].
    apply Z.gtb_lt in Hlen. cbn. repeat split; try assumption. lia. }
  destruct (nlp self) as [model|] eqn:Hmodel; [|right; now apply Hfb].
  rewrite try_except_fst in Hrun.
  destruct (model (prefix text 1000)) as [spans | message] eqn:Hout.
  - cbn in Hrun. injection Hrun as <-. left. now exists model, spans.
  - right. now apply Hfb.
Qed.

(** X17, run with a model that recognizes two names. *)
Lemma extract_entities_result_witness :
  exists found,
    fst (extract_entities config (StandIn.textblob f0_0) StandIn.all_models
           (s "Ann met Bob")) = inr found
    /\ ((exists model spans,
            StandIn.all_models.(nlp) = Some model
            /\ model (prefix (s "Ann met Bob") 1000) = Ok spans
            /\ found = map (fun span => {| entity_text := fst span;
                                           entity_label := snd span;
                                           entity_confidence := f0_9 |}) spans)
        \/ (exists phrases,
              (StandIn.textblob f0_0).(noun_phrases) (s "Ann met Bob") = Ok phrases
              /\ Forall (fun entity =>
                           In (entity_text entity) phrases
                           /\ len (entity_text entity) > 2
                           /\ isalpha (remove_spaces (entity_text entity)) = true
                           /\ entity_label entity = s "NOUN_PHRASE"
                           /\ entity_confidence entity = f0_7)
                   found)).
Proof.
  eexists. split; [reflexivity|].
  apply (extract_entities_result config (StandIn.textblob f0_0)
           StandIn.all_models (s "Ann met Bob")).
  reflexivity.
Defined.

(** X18. When the entity model raises, [extract_entities] answers what it
    answers with no model loaded. *)
Theorem extract_entities_model_failure
  (cfg : NLPConfig) (textblob : TextBlob) (self other : NLPProcessor)
  (model : str -> outcome (list (str * str))) (text message : str) :
  self.(nlp) = Some model ->
  other.(nlp) = None ->
  model (prefix text 1000) = Err message ->
  fst (extract_entities cfg textblob self text)
  = fst (extract_entities cfg textblob other text).
Proof.
  intros Hself Hother Hfail. unfold extract_entities. rewrite Hself, Hother.
  rewrite try_except_fst. now rewrite Hfail.
Qed.

(** X18, run with an entity model that fails. *)
Lemma extract_entities_model_failure_witness :
  fst (extract_entities config (StandIn.textblob f0_0) StandIn.broken_models
         StandIn.eleven_names)
  = fst (extract_entities config (StandIn.textblob f0_0) StandIn.no_models
           StandIn.eleven_names).
Proof.
  apply (extract_entities_model_failure config (StandIn.textblob f0_0)
           StandIn.broken_models StandIn.no_models
           (fun _ => Err (s "out of memory")) StandIn.eleven_names
           (s "out of memory")); reflexivity.
Defined.

(** ** The route: outcomes *)

Lemma supported_inv op :
  supported op = true ->
  op = s "summarize" \/ op = s "sentiment" \/ op = s "entities" \/ op = s "language".
Proof.
  unfold supported. intros H.
  repeat (apply orb_true_iff in H as [H | H]); apply str_eqb_eq in H; tauto.
Qed.

Section RouteOutcomes.

Variable cfg : NLPConfig.
Variable nltk : Nltk.
Variable textblob : TextBlob.
Variable nlp_processor : NLPProcessor.
Variable text : str.

Let step := process_operation cfg nltk textblob nlp_processor text.

(** The loop ends in a result, in a plain exception of a capability, or
    in the rejection of a name of the list that is not supported. *)
Lemma for_fold_outcomes (ops : list str) (result : NLPResult) :
  (exists result', fst (for_fold ops result step) = inr result')
  \/ (exists message, fst (for_fold ops result step) = inl (Exception message))
  \/ (exists op, In op ops /\ supported op = false
                 /\ fst (for_fold ops result step) = inl (unknown_operation op)).
Proof.
  revert result. induction ops as [|op rest IH]; intros result; cbn [for_fold].
  - left. now eexists.
  - destruct (supported op) eqn:Hop.
    + destruct (process_operation_supported cfg nltk textblob nlp_processor
                  text result op Hop) as [_ Hraise].
      fold step in Hraise.
      destruct (step result op) as [[e | result'] log] eqn:Hstep.
      * right. left. destruct (Hraise e eq_refl) as [message ->].
        now exists message.
      * cbn [bind].
        destruct (IH result') as [[r Hr] | [[message Hm] | (op' & Hin & Hno & Hr)]];
          destruct (for_fold rest result' step) as [res log']; cbn [fst] in *.
        -- left. now exists r.
        -- right. left. now exists message.
        -- right. right. exists op'. repeat split; [now right | exact Hno | exact Hr].
    + right. right. exists op.
      pose proof (process_operation_unknown cfg nltk textblob nlp_processor
                    text result op Hop) as Hstep.
      fold step in Hstep. rewrite Hstep.
      repeat split; [now left | exact Hop].
Qed.

End RouteOutcomes.

(** X19. [process_text] lets no exception of a capability escape.  It
    raises only three validation errors, all with status 400: the text is
    blank, the list of operations is empty, or a name of the list is not
    supported.  Otherwise it answers: with success and the result, or
    with success false and the message of the capability that raised. *)
Theorem process_text_outcomes
  (cfg : NLPConfig) (nltk : Nltk) (textblob : TextBlob)
  (nlp_processor : NLPProcessor) (task : NLPTask) :
  let outcome := fst (process_text cfg nltk textblob nlp_processor task) in
  outcome = inl text_required
  \/ outcome = inl operation_required
  \/ (exists op,
        In op task.(operations) /\ supported op = false
        /\ outcome = inl (unknown_operation op))
  \/ (exists message, outcome = inr (processing_failed message))
  \/ (exists result, outcome = inr (succeeded result)).
Proof.
  unfold process_text. rewrite try_except_fst.
  destruct (blank (task_text task)); [now left|].
  destruct (operations task) as [|op rest] eqn:Hops; [right; now left|].
  rewrite <- Hops.
  pose proof (for_fold_outcomes cfg nltk textblob nlp_processor
                (task_text task) (operations task) NLPResult_empty) as Hloop.
  destruct (for_fold (operations task) NLPResult_empty
              (process_operation cfg nltk textblob nlp_processor (task_text task)))
    as [[e | result] log]; cbn [fst bind] in *.
  - destruct Hloop as [[r Hr] | [[message Hm] | (op' & Hin & Hno & Hr)]].
    + discriminate.
    + injection Hm as ->. right. right. right. left. now exists message.
    + injection Hr as ->. right. right. left. exists op'.
      repeat split; [now rewrite Hops in * | exact Hno].
  - right. right. right. right. now exists result.
Qed.

Section RouteFields.

Variable cfg : NLPConfig.
Variable nltk : Nltk.
Variable textblob : TextBlob.
Variable nlp_processor : NLPProcessor.
Variable text : str.

Let step := process_operation cfg nltk textblob nlp_processor text.

(** A supported operation that goes through sets its own field and
    leaves the other three as they were. *)
Lemma process_operation_fields (result result' : NLPResult) (op name : str) :
  supported op = true ->
  supported name = true ->
  fst (step result op) = inr result' ->
  has_field name result' = has_field name result || str_eqb name op.
Proof.
  intros Hop Hname. unfold step, process_operation.
  destruct (str_eqb op (s "summarize")) eqn:E1;
    [|destruct (str_eqb op (s "sentiment")) eqn:E2;
      [|destruct (str_eqb op (s "entities")) eqn:E3;
        [|destruct (str_eqb op (s "language")) eqn:E4;
          [|unfold supported in Hop; rewrite E1, E2, E3, E4 in Hop;
            discriminate]]]];
    match goal with
    | |- context [bind (tell _) (fun _ => bind (lift ?X) (fun v => ret (@?k v)))] =>
        destruct (dispatch_step op X k) as (_ & Hraise & Hret)
    end;
    match goal with
    | |- context [lift ?X] => destruct (fst X) as [e | v] eqn:Hm
    end;
    try (rewrite (Hraise _ eq_refl); discriminate);
    rewrite (Hret _ eq_refl); intros [= <-];
    match goal with
    | H : str_eqb op _ = true |- _ => apply str_eqb_eq in H; subst op
    end;
    destruct (supported_inv name Hname) as [-> | [-> | [-> | ->]]];
    destruct result as [f1 f2 f3 f4]; destruct f1, f2, f3, f4; reflexivity.
Qed.

(** When every name is supported and the loop goes through, each
    operation of the list was dispatched, in order, and the fields set
    are those already set and those of the operations of the list. *)
Lemma for_fold_fields (ops : list str) (result result' : NLPResult) :
  Forall (fun op => supported op = true) ops ->
  fst (for_fold ops result step) = inr result' ->
  dispatched (snd (for_fold ops result step)) = ops
  /\ forall name, supported name = true ->
       has_field name result' = has_field name result || mem name ops.
Proof.
  intros Hall. revert result.
  induction Hall as [|op rest Hop _ IH]; intros result Hrun; cbn [for_fold] in *.
  - injection Hrun as <-. split; [reflexivity|].
    intros name _. cbn. now rewrite orb_false_r.
  - destruct (process_operation_supported cfg nltk textblob nlp_processor
                text result op Hop) as [Hd _].
    fold step in Hd.
    pose proof (fun name Hname r =>
                  process_operation_fields result r op name Hop Hname) as Hfields.
    destruct (step result op) as [[e | result1] log]; [discriminate|].
    cbn [bind fst snd] in *.
    specialize (IH result1).
    destruct (for_fold rest result1 step) as [res log']. cbn [fst snd] in *.
    destruct (IH Hrun) as [Hd' Hrest].
    split.
    + now rewrite dispatched_app, Hd, Hd'.
    + intros name Hname. rewrite (Hrest name Hname).
      rewrite (Hfields name Hname result1 eq_refl).
      cbn [mem existsb]. now rewrite orb_assoc.
Qed.

End RouteFields.

Lemma has_field_empty name : has_field name NLPResult_empty = false.
Proof.
  unfold has_field.
  repeat match goal with |- context [str_eqb ?a ?b] => destruct (str_eqb a b) end;
    reflexivity.
Qed.

(** X20. For a text that is not blank and a non-empty list of supported
    names, [process_text] never rejects the request.  Unless a capability
    raises, it answers with success after dispatching every operation of
    the list once per listing, in the order of the list, and the fields
    set in the result are exactly those of the operations requested. *)
Theorem process_text_supported_operations
  (cfg : NLPConfig) (nltk : Nltk) (textblob : TextBlob)
  (nlp_processor : NLPProcessor) (task : NLPTask) :
  blank task.(task_text) = false ->
  task.(operations) <> [] ->
  Forall (fun op => supported op = true) task.(operations) ->
  let m := process_text cfg nltk textblob nlp_processor task in
  (exists result,
      fst m = inr (succeeded result)
      /\ dispatched (snd m) = task.(operations)
      /\ forall name, supported name = true ->
           (has_field name result = true <-> In name task.(operations)))
  \/ (exists message, fst m = inr (processing_failed message)).
Proof.
  intros Hblank Hne Hall. unfold process_text. rewrite Hblank.
  destruct (operations task) as [|op rest] eqn:Hops; [congruence|].
  rewrite <- Hops in *.
  pose proof (for_fold_outcomes cfg nltk textblob nlp_processor
                (task_text task) (operations task) NLPResult_empty) as Hloop.
  pose proof (for_fold_fields cfg nltk textblob nlp_processor
                (task_text task) (operations task) NLPResult_empty) as Hfields.
  destruct (for_fold (operations task) NLPResult_empty
              (process_operation cfg nltk textblob nlp_processor (task_text task)))
    as [[e | result] log]; cbn [fst snd bind try_except] in *.
  - right. destruct Hloop as [[r Hr] | [[message Hm] | (op' & Hin & Hno & Hr)]].
    + discriminate.
    + injection Hm as ->. cbn. now exists message.
    + rewrite Forall_forall in Hall. rewrite (Hall _ Hin) in Hno. discriminate.
  - left. exists result. cbn.
    destruct (Hfields result Hall eq_refl) as [Hd Hset].
    rewrite !app_nil_r. split; [reflexivity|]. split; [exact Hd|].
    intros name Hname. rewrite (Hset name Hname), has_field_empty.
    cbn [orb]. apply mem_In.
Qed.

(** X20, run on a short text with three operations, one listed twice. *)
Lemma process_text_supported_operations_witness :
  let task := {| task_text := s "Short.";
                 operations := [s "language"; s "summarize"; s "language"] |} in
  let m := process_text config StandIn.nltk (StandIn.textblob f0_0)
             StandIn.no_models task in
  (exists result,
      fst m = inr (succeeded result)
      /\ dispatched (snd m) = task.(operations)
      /\ forall name, supported name = true ->
           (has_field name result = true <-> In name task.(operations)))
  \/ (exists message, fst m = inr (processing_failed message)).
Proof.
  apply (process_text_supported_operations config StandIn.nltk
           (StandIn.textblob f0_0) StandIn.no_models
           {| task_text := s "Short.";
              operations := [s "language"; s "summarize"; s "language"] |}).
  - reflexivity.
  - discriminate.
  - repeat constructor.
Defined.

(** ** The quick endpoints *)

Lemma quick_endpoint_fst {A} (op : str) (method : M call A)
  (failed : exn -> str) :
  fst (try_except
         (tell (Dispatch op) ;; v <- lift method ;; ret (Payload v))%monad
         (fun e => ret (Failed (failed e))))
  = inr match fst method with
        | inr v => Payload v
        | inl e => Failed (failed e)
        end.
Proof. now destruct method as [[e | v] log]. Qed.


Lemma analyze_sentiment_raises_with_textblob cfg textblob self text e :
  fst (analyze_sentiment cfg textblob self text) = inl e ->
  exists message,
    textblob.(polarity) text = Err message /\ e = Exception message.
Proof.
  unfold analyze_sentiment.
  destruct (negb (truthy text)); [discriminate|].
  assert (Hfb : fst (tell (TextBlobSentiment text) ;;
                     polarity <- of_outcome (textblob.(polarity) text) ;;
                     ret (polarity_sentiment polarity))%monad = inl e ->
                exists message,
                  textblob.(polarity) text = Err message /\ e = Exception message).
  { destruct (polarity textblob text) as [p | message]; cbn; [discriminate|].
    intros [= <-]. now exists message. }
  destruct (sentiment_analyzer self) as [model|]; [|exact Hfb].
  rewrite try_except_fst.
  match goal with |- context [match fst ?m with _ => _ end] => destruct (fst m) end;
    [exact Hfb | discriminate].
Qed.

(** X22. The endpoint [/sentiment] never raises and rejects no text.  It
    answers the error entry only when the lexicon fallback itself raised,
    with the message of that exception; a failure of the model alone
    never shows. *)
Theorem analyze_sentiment_only_answers
  (cfg : NLPConfig) (textblob : TextBlob) (nlp_processor : NLPProcessor)
  (str_of_exn : exn -> str) (text : str) :
  exists answer,
    fst (analyze_sentiment_only cfg textblob nlp_processor str_of_exn text)
    = inr answer
    /\ (forall error,
          answer = Failed error ->
          exists message,
            textblob.(polarity) text = Err message
            /\ error = s "Sentiment analysis failed: "
                        ++ str_of_exn (Exception message)).
Proof.
  unfold analyze_sentiment_only. rewrite quick_endpoint_fst.
  destruct (fst (analyze_sentiment cfg textblob nlp_processor text))
    as [e | r] eqn:Hrun.
  - destruct (analyze_sentiment_raises_with_textblob _ _ _ _ _ Hrun)
      as (message & Htb & ->).
    eexists. split; [reflexivity|].
    intros error [= <-]. now exists message.
  - eexists. split; [reflexivity|]. discriminate.
Qed.
